(** * Verification of the lighter-python spread monitor

    Shallow embedding of the parts of [src/arb] that compute samples,
    signals, bin statistics, the execution simulator, the ingestion
    endpoint and the rate limiter.

    Number models.  Python [int] is [Z].  Python [float] arithmetic that
    only adds, multiplies, divides and compares is modelled exactly with
    [Q] (rounding of IEEE doubles is not modelled); code that takes square
    roots or logarithms ([RollingZScore.update], [estimate_reversion_times])
    is modelled over the real numbers [R].  A Python division by zero or a
    [math.log] domain error raises; where the code can reach one, the model
    makes it explicit instead of using the total division of [Q] or [R]. *)

From Stdlib Require Import ZArith QArith Qabs Qround Qminmax Reals Lra Lia List Bool Ascii String Sorted Permutation.
From Stdlib Require Lqa.
From stdpp Require Import gmap strings.
Import ListNotations.

(** Strict comparison on [Q] as a boolean, [a < b]. *)
Definition qlt (a b : Q) : bool := negb (Qle_bool b a).

(** ** The poller tick: action decision and freshness
    ([src/arb/runner_reminder.py], [poll_pair_with_store], lines 98-119). *)
Module Tick.
Local Open Scope string_scope.

Inductive action := hold | enter_short_A_long_B | enter_long_A_short_B | exit.

(** The string the code assigns to [action]. *)
Definition action_name (a : action) : string :=
  match a with
  | hold => "hold"
  | enter_short_A_long_B => "enter_short_A_long_B"
  | enter_long_A_short_B => "enter_long_A_short_B"
  | exit => "exit"
  end.

(** Tail of [RollingZScore.update] (zscore.py, lines 32-35): the z value
    from the returned mean and std. *)
Definition z_of (value mean std : Q) : Q :=
  if qlt 0 std then ((value - mean) / std)%Q else 0%Q.

(** Lines 109-115. *)
Definition decide_action (zscore enter_z exit_z : Q) : action :=
  if Qle_bool enter_z zscore then enter_short_A_long_B
  else if Qle_bool zscore (- enter_z)%Q then enter_long_A_short_B
  else if Qle_bool (Qabs zscore) exit_z then exit
  else hold.

(** The freshness fields the tick persists ([insert_spread] arguments
    [age_a_ms], ..., [stale]) and the final [action]. *)
Record tick_sample := {
  ts : Z;
  age_a_ms : Z;
  age_b_ms : Z;
  skew_ms : Z;
  latency_ms : Z;
  stale : Z;
  act : action
}.

(** Lines 102-119.  [zscore] is the value returned by [z.update(spread)];
    [ts_a], [ts_b] are the completion times and [dur_a], [dur_b] the
    durations of the two timed mid-price fetches. *)
Definition tick (zscore enter_z exit_z : Q)
    (ts_a ts_b dur_a dur_b stale_ms_th skew_ms_th : Z) : tick_sample :=
  let ts := Z.max ts_a ts_b in
  let age_a := (ts - ts_a)%Z in
  let age_b := (ts - ts_b)%Z in
  let skew := Z.abs (ts_a - ts_b) in
  let latency := Z.max dur_a dur_b in
  let action := decide_action zscore enter_z exit_z in
  let stale :=
    if ((age_a >? stale_ms_th) || (age_b >? stale_ms_th) || (skew >? skew_ms_th))%Z
    then 1%Z else 0%Z in
  let action := if negb (stale =? 0)%Z then hold else action in
  {| ts := ts; age_a_ms := age_a; age_b_ms := age_b; skew_ms := skew;
     latency_ms := latency; stale := stale; act := action |}.

End Tick.

(** ** Rolling z-score ([src/arb/signal/zscore.py], [RollingZScore]) *)
Module ZScore.
Local Open Scope R_scope.

(** Python [sum] over floats. *)
Definition sumR (l : list R) : R := fold_right Rplus 0 l.

(** [deque(maxlen=maxlen).append(x)]: append on the right and drop the
    leftmost element when the length would exceed [maxlen]. *)
Definition deque_append (maxlen : nat) (buf : list R) (x : R) : list R :=
  let b := buf ++ [x] in
  if Nat.ltb maxlen (length b) then tl b else b.

Record rolling := { window : nat; buf : list R }.

(** [RollingZScore.__init__]: raises [ValueError] when [window <= 1]. *)
Definition make (window : nat) : option rolling :=
  if Nat.leb window 1 then None
  else Some {| window := window; buf := [] |}.

(** [RollingZScore.update]: returns [(z, mean, std)] and the new state. *)
Definition update (s : rolling) (value : R) : (R * R * R) * rolling :=
  let b := deque_append (window s) (buf s) value in
  let n := length b in
  let mean := sumR b / INR n in
  let std :=
    if Nat.ltb 1 n then
      let var := sumR (map (fun x => (x - mean) ^ 2) b) / INR (n - 1) in
      sqrt (Rmax var 0)
    else 0 in
  let z := if Rlt_dec 0 std then (value - mean) / std else 0 in
  ((z, mean, std), {| window := window s; buf := b |}).

(** States a [RollingZScore(W)] object can be in. *)
Inductive reachable (W : nat) : rolling -> Prop :=
| reach_make : forall s, make W = Some s -> reachable W s
| reach_update : forall s x, reachable W s -> reachable W (snd (update s x)).

End ZScore.

(** ** AR(1) reversion estimator
    ([src/arb/runner_reminder.py], [estimate_reversion_times], 331-362) *)
Module Reversion.
Import ZScore.
Local Open Scope R_scope.

(** Float division [a / b]: raises [ZeroDivisionError] when [b = 0]. *)
Definition py_div (a b : R) : option R :=
  if Req_dec_T b 0 then None else Some (a / b).

(** [math.log x]: raises [ValueError] unless [x > 0]. *)
Definition py_log (x : R) : option R :=
  if Rlt_dec 0 x then Some (ln x) else None.

(** The body of the [try] block; [None] is a raised exception, an early
    [return None, None] is [Some (None, None)]. *)
Definition reversion_body (series : list R) (current_z exit_z : R) (poll_ms : Z)
    : option (option R * option R) :=
  if Nat.ltb (length series) 10 then Some (None, None) else
  let x := removelast series in
  let y := tl series in
  mean_x ← py_div (sumR x) (INR (length x));
  mean_y ← py_div (sumR y) (INR (length y));
  let num := sumR (map (fun '(xi, yi) => (xi - mean_x) * (yi - mean_y)) (combine x y)) in
  let den := sumR (map (fun xi => (xi - mean_x) ^ 2) x) in
  if Req_dec_T den 0 then Some (None, None) else
  phi ← py_div num den;
  if Rle_dec phi 0 then Some (None, None) else
  if Rle_dec (9999 / 10000) phi then Some (None, None) else
  l2 ← py_log 2;
  lphi ← py_log phi;
  half_life_samples ← py_div l2 (- lphi);
  let half_life_s := half_life_samples * (IZR poll_ms / 1000) in
  if Rle_dec exit_z 0 then Some (Some half_life_s, Some 0) else
  if Rle_dec (Rabs current_z) exit_z then Some (Some half_life_s, Some 0) else
  k ← py_div l2 half_life_s;
  r ← py_div (Rabs current_z) exit_z;
  lr ← py_log r;
  t_exit_s ← py_div lr k;
  Some (Some half_life_s, Some t_exit_s).

(** [estimate_reversion_times(z, current_z, exit_z, poll_ms)] on the
    window [z.buf]; [except Exception: return None, None]. *)
Definition estimate_reversion_times (buf : list R) (current_z exit_z : R) (poll_ms : Z)
    : option R * option R :=
  match reversion_body buf current_z exit_z poll_ms with
  | Some r => r
  | None => (None, None)
  end.

(** The OLS quantities of section 4.3 on [xs = B[:-1]], [ys = B[1:]]. *)
Definition ols_mean (l : list R) : R := sumR l / INR (length l).

Definition ols_num (B : list R) : R :=
  let xs := removelast B in
  let ys := tl B in
  sumR (map (fun '(xi, yi) => (xi - ols_mean xs) * (yi - ols_mean ys)) (combine xs ys)).

Definition ols_den (B : list R) : R :=
  let xs := removelast B in
  sumR (map (fun xi => (xi - ols_mean xs) ^ 2) xs).

Definition ols_phi (B : list R) : R := ols_num B / ols_den B.

(** The estimator as the specification words it (section 4.3), to be
    compared with [estimate_reversion_times]. *)
Definition reversion_claimed (B : list R) (z exit_z : R) (poll_ms : Z)
    : option R * option R :=
  if Nat.ltb (length B) 10 then (None, None)
  else if Req_dec_T (ols_den B) 0 then (None, None)
  else if Rle_dec (ols_phi B) 0 then (None, None)
  else if Rle_dec (9999 / 10000) (ols_phi B) then (None, None)
  else
    let hl := ln 2 / (- ln (ols_phi B)) * (IZR poll_ms / 1000) in
    (Some hl,
     Some (if Rle_dec exit_z 0 then 0
           else if Rle_dec (Rabs z) exit_z then 0
           else ln (Rabs z / exit_z) * hl / ln 2)).

End Reversion.

(** ** Bin statistics ([src/arb/panel/server.py], [_parse_edges] and
    [api_stats_bins], lines 95-179) *)
Module Bins.
Local Open Scope Q_scope.

(** The columns of a stored sample the endpoint reads. *)
Record row := {
  ts_ms : Z;
  z : option Q;
  fr_countdown_ms : option Q
}.

(** Python's [list.sort(key=...)]: a stable sort by an integer key. *)
Fixpoint insert_by {A} (key : A -> Z) (a : A) (l : list A) : list A :=
  match l with
  | [] => [a]
  | b :: l' => if (key b <? key a)%Z then b :: insert_by key a l' else a :: l
  end.

Fixpoint sort_by {A} (key : A -> Z) (l : list A) : list A :=
  match l with
  | [] => []
  | a :: l' => insert_by key a (sort_by key l')
  end.

(** [samples.sort()] on floats. *)
Fixpoint insert_q (a : Q) (l : list Q) : list Q :=
  match l with
  | [] => [a]
  | b :: l' => if qlt b a then b :: insert_q a l' else a :: l
  end.

Fixpoint sort_q (l : list Q) : list Q :=
  match l with
  | [] => []
  | a :: l' => insert_q a (sort_q l')
  end.

(** [_parse_edges] after the comma-separated floats have been parsed:
    sort them and pair each edge with the next one ([None] = open). *)
Fixpoint edges_to_bins (parts : list Q) : list (Q * option Q) :=
  match parts with
  | [] => []
  | [lo] => [(lo, None)]
  | lo :: ((hi :: _) as rest) => (lo, Some hi) :: edges_to_bins rest
  end.

Definition parse_edges (parts : list Q) : list (Q * option Q) :=
  edges_to_bins (sort_q parts).

(** The inner [while j < n] loop: first [j >= i] with [absz[j] <= exit_z];
    called on [skipn i absz] with [j = i]. *)
Fixpoint find_exit (exit_z : Q) (l : list Q) (j : nat) : option nat :=
  match l with
  | [] => None
  | a :: l' => if Qle_bool a exit_z then Some j else find_exit exit_z l' (S j)
  end.

Section Walk.
Variables (lo : Q) (hi : option Q) (exit_z : Q).
Variables (absz : list Q) (tms : list Z) (countdown : list (option Q)).

(** The outer [while i < n] loop, run for at most [fuel] iterations;
    [None] when it has not stopped by then.  When an entry reaches the
    exit threshold at [j = i] the Python loop sets [i = j] and never
    stops. *)
Fixpoint walk (fuel : nat) (i : nat) (samples prob : list Q)
    : option (list Q * list Q) :=
  match fuel with
  | O => None
  | S fuel' =>
    if Nat.ltb i (length absz) then
      let prev := nth (i - 1) absz 0 in
      let cur := nth i absz 0 in
      let enter := qlt prev lo && Qle_bool lo cur &&
                   match hi with None => true | Some h => qlt cur h end in
      if enter then
        let start_t := nth i tms 0%Z in
        match find_exit exit_z (skipn i absz) i with
        | Some j =>
          let dt_ms := (nth j tms 0%Z - start_t)%Z in
          let samples' := samples ++ [Qred (inject_Z dt_ms / 1000)] in
          let prob' :=
            match nth i countdown None with
            | Some c => prob ++ [if Qle_bool (inject_Z dt_ms) c then 1 else 0]
            | None => prob
            end in
          walk fuel' j samples' prob'
        | None => walk fuel' (S i) samples prob
        end
      else walk fuel' (S i) samples prob
    else Some (samples, prob)
  end.

End Walk.

(** Python's [round] on a float: round half to even. *)
Definition round_half_even (q : Q) : Z :=
  let f := Qfloor q in
  let r := q - inject_Z f in
  if qlt r (1 # 2) then f
  else if qlt (1 # 2) r then (f + 1)%Z
  else if Z.even f then f else (f + 1)%Z.

(** The local [pct(p)] on the sorted [samples]. *)
Definition pct (samples : list Q) (p : Q) : option Q :=
  let cnt := length samples in
  if Nat.eqb cnt 0 then None
  else
    let k := Z.max 0 (Z.min (Z.of_nat cnt - 1)
                              (round_half_even (p * inject_Z (Z.of_nat cnt - 1)))) in
    Some (nth (Z.to_nat k) samples 0).

Record bin_stat := {
  bin_lo : Q;
  bin_hi : option Q;
  samples_n : nat;
  p25_s : option Q;
  median_s : option Q;
  p75_s : option Q;
  p90_s : option Q;
  prob_exit_before_funding : option Q
}.

Definition mean_q (l : list Q) : option Q :=
  match l with
  | [] => None
  | _ => Some (Qred (fold_right Qplus 0 l / inject_Z (Z.of_nat (length l))))
  end.

(** One iteration of [for (lo, hi) in bins]. *)
Definition bin_stats (exit_z : Q) (absz : list Q) (tms : list Z)
    (countdown : list (option Q)) (bin : Q * option Q) : option bin_stat :=
  let '(lo, hi) := bin in
  match walk lo hi exit_z absz tms countdown (S (length absz)) 1 [] [] with
  | None => None
  | Some (samples, prob) =>
    let s := sort_q samples in
    Some {| bin_lo := lo; bin_hi := hi; samples_n := length s;
            p25_s := pct s (1 # 4); median_s := pct s (1 # 2);
            p75_s := pct s (3 # 4); p90_s := pct s (9 # 10);
            prob_exit_before_funding := mean_q prob |}
  end.

Fixpoint all_some {A} (l : list (option A)) : option (list A) :=
  match l with
  | [] => Some []
  | Some a :: l' => match all_some l' with Some r => Some (a :: r) | None => None end
  | None :: _ => None
  end.

(** [api_stats_bins] on the rows [get_spreads] returned, the current time
    [now_ms], and the parsed edges; [None] when the handler does not
    return. *)
Definition series (rows : list row) (now_ms days : Z) : list row :=
  let since_ms := (now_ms - days * 86400000)%Z in
  sort_by ts_ms (filter (fun r => (since_ms <=? ts_ms r)%Z) rows).

(** [absz = [abs(float(r.get("z") or 0.0)) for r in seq]]. *)
Definition abs_zs (seq : list row) : list Q :=
  map (fun r => Qabs (match z r with
                      | Some v => if Qeq_bool v 0 then 0 else v
                      | None => 0 end)) seq.

Definition api_stats_bins (rows : list row) (now_ms days : Z) (exit_z : Q)
    (edges : list Q) : option (list bin_stat) :=
  let seq := series rows now_ms days in
  let bins := parse_edges edges in
  let absz := abs_zs seq in
  let tms := map ts_ms seq in
  let countdown := map fr_countdown_ms seq in
  all_some (map (bin_stats exit_z absz tms countdown) bins).

(** Nearest-rank percentile as the specification words it: the element of
    rank [ceil (p * n)] of the [n] sorted durations. *)
Definition nearest_rank (s : list Q) (p : Q) : option Q :=
  match s with
  | [] => None
  | _ => Some (nth (Z.to_nat (Qceiling (p * inject_Z (Z.of_nat (length s)))) - 1) s 0)
  end.

End Bins.

(** ** Funding advice ([poll_pair_with_store], lines 255-278) *)
Module Funding.
Import Tick.
Local Open Scope Q_scope.

(** The two advice strings of the source, lines 268 and 270. *)
Definition advice_before_funding : string :=
  "预计在下一次资金费率前收敛，可考虑规避资金费率影响".
Definition advice_span_funding : string :=
  "预计跨越下一次资金费率，可评估净资金费率收益/成本后决定".

Record funding_out := {
  advice : option string;
  net_funding_cycle_usd : option Q;
  expect_funding_next_usd : option Q
}.

Definition no_funding : funding_out :=
  {| advice := None; net_funding_cycle_usd := None; expect_funding_next_usd := None |}.

(** [net_rate], lines 259-264. *)
Definition net_rate_of (action : Tick.action) (fr_a_rate fr_b_rate : option Q) : option Q :=
  match action, fr_a_rate, fr_b_rate with
  | enter_short_A_long_B, Some a, Some b => Some (a - b)
  | enter_long_A_short_B, Some a, Some b => Some (b - a)
  | _, _, _ => None
  end.

(** Lines 256-278.  [if countdown_ms and t_exit_s]: both must be present
    and non-zero (Python truthiness).  [int(countdown_ms / 1000)]
    truncates toward zero. *)
Definition funding_step (action : Tick.action) (fr_a_rate fr_b_rate : option Q)
    (countdown_ms : option Z) (t_exit_s : option Q) (notional_usd : Q) : funding_out :=
  match countdown_ms, t_exit_s with
  | Some c, Some t =>
    if negb (c =? 0)%Z && negb (Qeq_bool t 0) then
      match net_rate_of action fr_a_rate fr_b_rate with
      | Some net_rate =>
        let time_to_funding_s := Z.max 0 (Z.quot c 1000) in
        let adv := if qlt t (inject_Z time_to_funding_s)
                   then advice_before_funding else advice_span_funding in
        let cycle := notional_usd * net_rate in
        {| advice := Some adv;
           net_funding_cycle_usd := Some cycle;
           expect_funding_next_usd :=
             Some (if Qle_bool (inject_Z time_to_funding_s) t then cycle else 0) |}
      | None => no_funding
      end
    else no_funding
  | _, _ => no_funding
  end.

(** The advice strings as the specification words them. *)
Definition spec_advice_before : string :=
  "convergence expected before next funding; funding avoidable".
Definition spec_advice_span : string :=
  "position likely to span next funding; evaluate net funding".

End Funding.

(** ** Execution simulator ([src/arb/panel/server.py], [_avg_exec_price]
    and [api_simulate], lines 316-415) *)
Module Sim.
Local Open Scope Q_scope.

(** The [for price, qty in seq] loop of [_avg_exec_price]; returns
    [(total_quote, filled)]. *)
Fixpoint walk_levels (levels : list (Q * Q)) (remaining total_quote filled : Q) : Q * Q :=
  match levels with
  | [] => (total_quote, filled)
  | (price, qty) :: rest =>
    if Qle_bool remaining 0 then (total_quote, filled)
    else
      let take := Qmin remaining qty in
      walk_levels rest (remaining - take) (total_quote + take * price) (filled + take)
  end.

(** [_avg_exec_price(levels, base_qty, side)]; [side] does not change the
    order of the levels. *)
Definition avg_exec_price (levels : list (Q * Q)) (base_qty : Q) : Q * Q :=
  let '(total_quote, filled) := walk_levels levels base_qty 0 0 in
  (if qlt 0 filled then total_quote / filled else 0, filled).

Record book := { bids : list (Q * Q); asks : list (Q * Q) }.

Record sim_out := {
  mid_a : Q; mid_b : Q;
  avg_a : Q; avg_b : Q;
  slip_a_pct : Q; slip_b_pct : Q;
  slip_a_usd : Q; slip_b_usd : Q;
  fee_a_usd : Q; fee_b_usd : Q;
  total_cost_usd : Q;
  filled_base_a : Q; filled_base_b : Q
}.

(** Outcome of the handler: a JSON body, or an HTTP error status (an
    uncaught [ZeroDivisionError] is a 500). *)
Inductive sim_result := SimOk (r : sim_out) | SimError (status : Z).

Inductive side := buy | sell.

(** [x or 0.0] on the looked-up taker fee. *)
Definition taker_or_zero (t : option Q) : Q :=
  match t with Some v => if Qeq_bool v 0 then 0 else v | None => 0 end.

Definition py_qdiv (a b : Q) : option Q := if Qeq_bool b 0 then None else Some (a / b).

(** [api_simulate] after the venue calls: [ma], [mb] are the mid prices,
    [levels_a], [levels_b] the books, [taker_a], [taker_b] the fee
    lookups. *)
Definition api_simulate (notional_usd : Q) (pattern : string) (ma mb : Q)
    (levels_a levels_b : book) (taker_a taker_b : option Q) : sim_result :=
  match py_qdiv notional_usd ma, py_qdiv notional_usd mb with
  | Some base_qty_a, Some base_qty_b =>
    let sides :=
      if String.eqb pattern "enter_short_A_long_B" then Some (sell, buy)
      else if String.eqb pattern "enter_long_A_short_B" then Some (buy, sell)
      else None in
    match sides with
    | None => SimError 400
    | Some (side_a, side_b) =>
      let lv_a := match side_a with buy => asks levels_a | sell => bids levels_a end in
      let lv_b := match side_b with buy => asks levels_b | sell => bids levels_b end in
      let '(aa, fa) := avg_exec_price lv_a base_qty_a in
      let '(ab, fb) := avg_exec_price lv_b base_qty_b in
      let sa := if qlt 0 aa then Qabs (aa - ma) / ma else 0 in
      let sb := if qlt 0 ab then Qabs (ab - mb) / mb else 0 in
      let sa_usd := sa * notional_usd in
      let sb_usd := sb * notional_usd in
      let fee_a := taker_or_zero taker_a * notional_usd in
      let fee_b := taker_or_zero taker_b * notional_usd in
      SimOk {| mid_a := ma; mid_b := mb; avg_a := aa; avg_b := ab;
               slip_a_pct := sa; slip_b_pct := sb;
               slip_a_usd := sa_usd; slip_b_usd := sb_usd;
               fee_a_usd := fee_a; fee_b_usd := fee_b;
               total_cost_usd := sa_usd + sb_usd + fee_a + fee_b;
               filled_base_a := fa; filled_base_b := fb |}
    end
  | _, _ => SimError 500
  end.

End Sim.

(** ** Python floats

    A [float] is a finite value (exact, as everywhere in this file), an
    infinity or a NaN.  The operations follow IEEE 754 on the special
    values; Python's [min(a, b)] is [b if b < a else a]. *)
Module PyFloat.
Local Open Scope Q_scope.

Inductive pyfloat := FFin (q : Q) | FInf | FNInf | FNaN.

Definition neg (x : pyfloat) : pyfloat :=
  match x with FFin q => FFin (- q) | FInf => FNInf | FNInf => FInf | FNaN => FNaN end.

Definition add (x y : pyfloat) : pyfloat :=
  match x, y with
  | FNaN, _ | _, FNaN => FNaN
  | FInf, FNInf | FNInf, FInf => FNaN
  | FInf, _ | _, FInf => FInf
  | FNInf, _ | _, FNInf => FNInf
  | FFin a, FFin b => FFin (a + b)
  end.

Definition sub (x y : pyfloat) : pyfloat := add x (neg y).

(** [a * inf] for a finite [a]: NaN for a zero, else an infinity with the
    sign of [a] ([pos]: [inf] is positive). *)
Definition mul_inf (a : Q) (pos : bool) : pyfloat :=
  if Qeq_bool a 0 then FNaN
  else if Bool.eqb (qlt 0 a) pos then FInf else FNInf.

Definition mul (x y : pyfloat) : pyfloat :=
  match x, y with
  | FNaN, _ | _, FNaN => FNaN
  | FFin a, FFin b => FFin (a * b)
  | FFin a, FInf | FInf, FFin a => mul_inf a true
  | FFin a, FNInf | FNInf, FFin a => mul_inf a false
  | FInf, FInf | FNInf, FNInf => FInf
  | FInf, FNInf | FNInf, FInf => FNInf
  end.

(** [x < y]; every comparison with a NaN is false. *)
Definition lt (x y : pyfloat) : bool :=
  match x, y with
  | FFin a, FFin b => qlt a b
  | FNInf, (FFin _ | FInf) => true
  | FFin _, FInf => true
  | _, _ => false
  end.

(** [min(n, x)] for an [int] [n] and a [float] [x]. *)
Definition min_int (n : Z) (x : pyfloat) : pyfloat :=
  if lt x (FFin (inject_Z n)) then x else FFin (inject_Z n).

(** [float(n)] of an [int] raises [OverflowError] when [n] rounds beyond
    the largest double, i.e. when [|n| >= 2^1024 - 2^970]. *)
Definition int_fits (n : Z) : bool := (Z.abs n <? 2 ^ 1024 - 2 ^ 970)%Z.

End PyFloat.

(** ** JSON values as FastAPI hands them to the handlers *)
Module Json.
Import PyFloat.
Local Open Scope Z_scope.
Local Set Warnings "-register-all".

(** [JStr s]: [s] holds the UTF-8 encoding of the Python string (a lone
    surrogate, which a [\ud800] escape can produce, encoded as UTF-8 encodes
    any code point).  [JObj l]: the items of a dict, in order, with
    distinct keys.  [JInt n] has at most 4300 digits and [JFloat (FFin q)]
    is the value of a double: [json.loads] rejects longer integers and
    turns overflowing numbers into infinities. *)
Inductive json :=
| JNull
| JBool (b : bool)
| JInt (n : Z)
| JFloat (f : pyfloat)
| JStr (s : string)
| JArr (l : list json)
| JObj (l : list (string * json)).

(** A dict is an association list; [lookup] is [d.get(k)]. *)
Fixpoint lookup (k : string) (d : list (string * json)) : option json :=
  match d with
  | [] => None
  | (k', v) :: d' => if String.eqb k k' then Some v else lookup k d'
  end.

Definition get_default (k : string) (dflt : json) (d : list (string * json)) : json :=
  match lookup k d with Some v => v | None => dflt end.

(** *** [int(s)] and [float(s)] of a string

    Both first pass the string through
    [_PyUnicode_TransformDecimalAndSpaceToASCII]: a code point below 127
    is kept, a Unicode white space becomes a space, a Unicode decimal digit
    becomes its ASCII digit, and any other code point makes the conversion
    fail.  Characters are handled as their codes ([Z]). *)

(** UTF-8 decoding; a byte that starts no well-formed sequence gives the
    code [-1]. *)
Definition utf8_cont (b : Z) : bool := (128 <=? b) && (b <? 192).

Fixpoint utf8_decode (l : list Z) : list Z :=
  match l with
  | [] => []
  | b0 :: r =>
    if b0 <? 128 then b0 :: utf8_decode r
    else if (192 <=? b0) && (b0 <? 224) then
      match r with
      | b1 :: r1 =>
        if utf8_cont b1 then (64 * (b0 - 192) + (b1 - 128)) :: utf8_decode r1
        else -1 :: utf8_decode r
      | [] => [-1]
      end
    else if (224 <=? b0) && (b0 <? 240) then
      match r with
      | b1 :: b2 :: r2 =>
        if utf8_cont b1 && utf8_cont b2
        then (4096 * (b0 - 224) + 64 * (b1 - 128) + (b2 - 128)) :: utf8_decode r2
        else -1 :: utf8_decode r
      | _ => -1 :: utf8_decode r
      end
    else if (240 <=? b0) && (b0 <? 248) then
      match r with
      | b1 :: b2 :: b3 :: r3 =>
        if utf8_cont b1 && utf8_cont b2 && utf8_cont b3
        then (262144 * (b0 - 240) + 4096 * (b1 - 128) + 64 * (b2 - 128) + (b3 - 128))
               :: utf8_decode r3
        else -1 :: utf8_decode r
      | _ => -1 :: utf8_decode r
      end
    else -1 :: utf8_decode r
  end.

(** The first code point of each run of ten decimal digits (general
    category Nd) of Unicode 14.0, the database of Python 3.11. *)
Definition decimal_starts : list Z :=
  [48; 1632; 1776; 1984; 2406; 2534; 2662; 2790; 2918; 3046; 3174; 3302; 3430;
   3558; 3664; 3792; 3872; 4160; 4240; 6112; 6160; 6470; 6608; 6784; 6800; 6992;
   7088; 7232; 7248; 42528; 43216; 43264; 43472; 43504; 43600; 44016; 65296;
   66720; 68912; 69734; 69872; 69942; 70096; 70384; 70736; 70864; 71248; 71360;
   71472; 71904; 72016; 72784; 73040; 73120; 92768; 92864; 93008; 120782; 120792;
   120802; 120812; 120822; 123200; 123632; 125264; 130032].

(** [Py_UNICODE_TODECIMAL]. *)
Definition unicode_decimal (cp : Z) : option Z :=
  match List.find (fun s => (s <=? cp) && (cp <? s + 10)) decimal_starts with
  | Some s => Some (cp - s)
  | None => None
  end.

(** [Py_UNICODE_ISSPACE] above 127. *)
Definition unicode_spaces : list Z :=
  [133; 160; 5760; 8192; 8193; 8194; 8195; 8196; 8197; 8198; 8199; 8200; 8201;
   8202; 8232; 8233; 8239; 8287; 12288].

Definition to_ascii (cp : Z) : option Z :=
  if cp <? 0 then None
  else if cp <? 127 then Some cp
  else if existsb (Z.eqb cp) unicode_spaces then Some 32
  else match unicode_decimal cp with Some d => Some (48 + d) | None => None end.

Fixpoint all_ascii (l : list Z) : option (list Z) :=
  match l with
  | [] => Some []
  | c :: l' =>
    match to_ascii c, all_ascii l' with
    | Some a, Some r => Some (a :: r)
    | _, _ => None
    end
  end.

Definition string_codes (s : string) : list Z :=
  map (fun c => Z.of_nat (Ascii.nat_of_ascii c)) (list_ascii_of_string s).

Definition transform (s : string) : option (list Z) := all_ascii (utf8_decode (string_codes s)).

(** [Py_ISSPACE]: space, tab, newline, vertical tab, form feed, carriage
    return. *)
Definition is_space (c : Z) : bool := (c =? 32) || ((9 <=? c) && (c <=? 13)).

Definition is_digit (c : Z) : bool := (48 <=? c) && (c <=? 57).

Fixpoint drop_spaces (l : list Z) : list Z :=
  match l with
  | c :: l' => if is_space c then drop_spaces l' else l
  | [] => []
  end.

Definition strip (l : list Z) : list Z := rev (drop_spaces (rev (drop_spaces l))).

(** An optional ["+"] or ["-"]. *)
Definition split_sign (l : list Z) : Z * list Z :=
  match l with
  | c :: l' => if c =? 45 then (-1, l') else if c =? 43 then (1, l') else (1, l)
  | [] => (1, [])
  end.

(** The digit scan of [PyLong_FromString] (base 10): digits, each ["_"]
    between two digits; the value, the number of digits and the rest. *)
Fixpoint int_digits (l : list Z) (acc : Z) (n : nat) : Z * nat * list Z :=
  match l with
  | [] => (acc, n, [])
  | c :: l' =>
    if is_digit c then int_digits l' (10 * acc + (c - 48)) (S n)
    else if (c =? 95) && negb (Nat.eqb n 0) then
      match l' with
      | d :: _ => if is_digit d then int_digits l' acc n else (acc, n, l)
      | [] => (acc, n, l)
      end
    else (acc, n, l)
  end.

(** [int(s)] for a [str]: white space, an optional sign, at least one and
    at most 4300 digits ([sys.get_int_max_str_digits()] at its default),
    white space; [None] is a [ValueError]. *)
Definition parse_int (s : string) : option Z :=
  match transform s with
  | None => None
  | Some l =>
    let '(sg, l1) := split_sign (drop_spaces l) in
    let '(v, n, rest) := int_digits l1 0 0 in
    if (Nat.eqb n 0 || Nat.ltb 4300 n)%bool then None
    else if forallb is_space rest then Some (sg * v) else None
  end.

(** The check of [_Py_string_to_number_with_underscores]: every ["_"]
    comes right after a digit and right before a digit ([prev] is the
    previous code, [0] at the start). *)
Fixpoint underscores_ok (prev : Z) (l : list Z) : bool :=
  match l with
  | [] => negb (prev =? 95)
  | c :: l' =>
    (if c =? 95 then is_digit prev else if prev =? 95 then is_digit c else true)
    && underscores_ok c l'
  end.

(** A run of digits: the value (continuing [acc]), their number and the
    rest. *)
Fixpoint digits (l : list Z) (acc : Z) (n : nat) : Z * nat * list Z :=
  match l with
  | c :: l' => if is_digit c then digits l' (10 * acc + (c - 48)) (S n) else (acc, n, l)
  | [] => (acc, n, [])
  end.

Definition lower (c : Z) : Z := if (65 <=? c) && (c <=? 90) then c + 32 else c.

Fixpoint codes_eqb (l1 l2 : list Z) : bool :=
  match l1, l2 with
  | [], [] => true
  | c1 :: r1, c2 :: r2 => (c1 =? c2) && codes_eqb r1 r2
  | _, _ => false
  end.

(** The double nearest [m * 10^e] ([m > 0]), [nd] the number of digits
    of [m]: an infinity from [2^1024 - 2^970] up, [0] up to [2^-1075], the
    exact value in between. *)
Definition decimal_value (neg : bool) (m : Z) (nd : nat) (e : Z) : pyfloat :=
  let inf := if neg then FNInf else FInf in
  if m =? 0 then FFin 0
  else if 400 <? e then inf
  else if Z.of_nat nd + e <? -330 then FFin 0
  else
    let v := if 0 <=? e then inject_Z (m * 10 ^ e) else (m # Z.to_pos (10 ^ (- e)))%Q in
    if Qle_bool (inject_Z (2 ^ 1024 - 2 ^ 970)) v then inf
    else if Qle_bool v (1 # Z.to_pos (2 ^ 1075))%Q then FFin 0
    else FFin (if neg then - v else v)%Q.

(** [_Py_dg_strtod] on the whole (signless) rest: digits, an optional
    fraction, an optional exponent; at least one digit before the
    exponent. *)
Definition parse_decimal (neg : bool) (l : list Z) : option pyfloat :=
  let '(vi, ni, r1) := digits l 0 0 in
  let '(m, nf, r2) :=
    match r1 with
    | c :: r => if c =? 46 then digits r vi 0 else (vi, O, r1)
    | [] => (vi, O, [])
    end in
  if Nat.eqb (ni + nf) 0 then None
  else
    match r2 with
    | [] => Some (decimal_value neg m (ni + nf) (- Z.of_nat nf))
    | c :: r =>
      if (c =? 101) || (c =? 69) then
        let '(es, r') := split_sign r in
        let '(ev, en, r'') := digits r' 0 0 in
        match en, r'' with
        | S _, [] => Some (decimal_value neg m (ni + nf) (es * ev - Z.of_nat nf))
        | _, _ => None
        end
      else None
    end.

(** [_Py_parse_inf_or_nan]: ["inf"], ["infinity"] or ["nan"], in any
    case. *)
Definition parse_special (neg : bool) (l : list Z) : option pyfloat :=
  let w := map lower l in
  if codes_eqb w [105; 110; 102] || codes_eqb w [105; 110; 102; 105; 110; 105; 116; 121]
  then Some (if neg then FNInf else FInf)
  else if codes_eqb w [110; 97; 110] then Some FNaN
  else None.

(** [float(s)] for a [str]: the underscore check, the underscores
    removed, white space stripped, an optional sign, then a decimal number
    or a special value; [None] is a [ValueError]. *)
Definition parse_float (s : string) : option pyfloat :=
  match transform s with
  | None => None
  | Some l0 =>
    if underscores_ok 0 l0 then
      match strip (List.filter (fun c => negb (c =? 95)) l0) with
      | [] => None
      | l =>
        let '(sg, l') := split_sign l in
        let neg := (sg =? -1) in
        match parse_decimal neg l' with
        | Some f => Some f
        | None => parse_special neg l'
        end
      end
    else None
  end.

(** [int(v)]: [None] is a raised [TypeError], [ValueError] or (for an
    infinity) [OverflowError]. *)
Definition py_int (v : json) : option Z :=
  match v with
  | JBool b => Some (if b then 1 else 0)
  | JInt n => Some n
  | JFloat (FFin q) => Some (Z.quot (Qnum q) (Zpos (Qden q)))
  | JStr s => parse_int s
  | _ => None
  end.

(** [float(v)]; an [int] beyond the doubles raises [OverflowError]. *)
Definition py_float (v : json) : option pyfloat :=
  match v with
  | JBool b => Some (FFin (if b then 1 else 0))
  | JInt n => if int_fits n then Some (FFin (inject_Z n)) else None
  | JFloat f => Some f
  | JStr s => parse_float s
  | _ => None
  end.

End Json.

(** ** Ingestion and fanout ([src/arb/panel/server.py], [WSManager],
    [ingest_spread], lines 221-313; [insert_spread] in
    [src/arb/storage/sqlite.py]) *)
Module Ingest.
Import PyFloat Json.
Local Open Scope string_scope.

Definition required : list string :=
  ["pair"; "ts_ms"; "price_a"; "price_b"; "spread"; "z"; "mean"; "std"].

(** The optional columns, in the order [ingest_spread] passes them. *)
Definition extra_keys : list string :=
  ["ema"; "center_dev"; "ob_spread_a"; "ob_spread_b"; "ob_spread_pct_a";
   "ob_spread_pct_b"; "vol_a"; "vol_b"; "depth_qty_a"; "depth_qty_b";
   "depth_notional_a"; "depth_notional_b"; "maker_fee_a"; "taker_fee_a";
   "maker_fee_b"; "taker_fee_b"; "fr_a"; "fr_b"; "fr_countdown_ms";
   "half_life_s"; "t_exit_s"; "advice"; "net_funding_cycle_usd";
   "expect_funding_next_usd"; "age_a_ms"; "age_b_ms"; "skew_ms";
   "latency_ms"; "stale"].

(** A row of the [spreads] table. *)
Record stored := {
  s_pair : json;
  s_ts_ms : Z;
  s_price_a : pyfloat; s_price_b : pyfloat; s_spread : pyfloat;
  s_z : pyfloat; s_mean : pyfloat; s_std : pyfloat;
  s_extras : list json
}.

Record server := {
  db : list stored;
  active : gmap string (list nat);  (** [WSManager.active]: pair -> sockets *)
  sent : list (nat * list (string * json))  (** messages delivered so far *)
}.

(** The argument evaluation of the [insert_spread(...)] call: [int()] and
    [float()] of the required fields, [payload.get(k)] of the others. *)
Definition convert (payload : list (string * json)) : option stored :=
  match lookup "pair" payload with
  | None => None
  | Some pv =>
    ts ← (v ← lookup "ts_ms" payload; py_int v);
    pa ← (v ← lookup "price_a" payload; py_float v);
    pb ← (v ← lookup "price_b" payload; py_float v);
    sp ← (v ← lookup "spread" payload; py_float v);
    zz ← (v ← lookup "z" payload; py_float v);
    mn ← (v ← lookup "mean" payload; py_float v);
    sd ← (v ← lookup "std" payload; py_float v);
    Some {| s_pair := pv; s_ts_ms := ts; s_price_a := pa; s_price_b := pb;
            s_spread := sp; s_z := zz; s_mean := mn; s_std := sd;
            s_extras := map (fun k => get_default k JNull payload) extra_keys |}
  end.

(** A [str] holding a lone surrogate, which UTF-8 cannot encode. *)
Definition has_surrogate (s : string) : bool :=
  existsb (fun cp => ((55296 <=? cp) && (cp <=? 57343))%Z) (utf8_decode (string_codes s)).

(** What the sqlite3 driver can bind: [None], [bool], [int] within
    64 bits, [float] (a NaN is bound as [NULL]), [str] (encoded as UTF-8,
    which raises on a surrogate); a list or dict raises. *)
Definition sql_bindable (v : json) : bool :=
  match v with
  | JNull | JBool _ | JFloat _ => true
  | JStr s => negb (has_surrogate s)
  | JInt n => ((- 2 ^ 63 <=? n) && (n <? 2 ^ 63))%Z
  | JArr _ | JObj _ => false
  end.

Definition is_nan (f : pyfloat) : bool := match f with FNaN => true | _ => false end.

(** [insert_spread]: the columns [pair], [ts_ms] and the six [REAL]s
    [price_a] ... [std] are [NOT NULL], and a NaN is stored as [NULL]. *)
Definition insert_ok (r : stored) : bool :=
  sql_bindable (s_pair r) &&
  negb (match s_pair r with JNull | JFloat FNaN => true | _ => false end) &&
  sql_bindable (JInt (s_ts_ms r)) &&
  negb (existsb is_nan [s_price_a r; s_price_b r; s_spread r; s_z r; s_mean r; s_std r]) &&
  forallb sql_bindable (s_extras r).

(** [WSManager.disconnect]. *)
Definition disconnect (pair : string) (ws : nat) (act : gmap string (list nat))
    : gmap string (list nat) :=
  match act !! pair with
  | Some l => <[pair := filter (fun w => negb (Nat.eqb w ws)) l]> act
  | None => act
  end.

(** [WSManager.broadcast]: iterate over a snapshot of the pair's sockets;
    [alive ws] says whether [ws.send_json] succeeds. *)
Definition broadcast (alive : nat -> bool) (pair : json)
    (message : list (string * json)) (st : server) : server :=
  match pair with
  | JStr p =>
    let conns := match active st !! p with Some l => l | None => [] end in
    fold_left (fun st' ws =>
      if alive ws
      then {| db := db st'; active := active st'; sent := sent st' ++ [(ws, message)] |}
      else {| db := db st'; active := disconnect p ws (active st'); sent := sent st' |})
      conns st
  | _ => st  (** [active] has string keys only *)
  end.

Inductive response := status_ok | http_error (code : Z).

Definition has_key (k : string) (d : list (string * json)) : bool :=
  match lookup k d with Some _ => true | None => false end.

(** [ingest_spread(payload)]; an uncaught exception is a 500 with no
    effect. *)
Definition ingest_spread (alive : nat -> bool) (payload : list (string * json))
    (st : server) : response * server :=
  if negb (forallb (fun k => has_key k payload) required) then (http_error 400, st)
  else
    match convert payload with
    | None => (http_error 500, st)
    | Some r =>
      if insert_ok r then
        let st1 := {| db := db st ++ [r]; active := active st; sent := sent st |} in
        (status_ok, broadcast alive (s_pair r) payload st1)
      else (http_error 500, st)
    end.

End Ingest.

(** ** Rate limiter ([src/arb/rate_limiter.py]) *)
Module RateLimit.
Import PyFloat Json.
Local Open Scope Q_scope.

(** The clock readings of [time.monotonic()] are finite, [Q]. *)
Record bucket := {
  capacity : Z;
  refill_rate : pyfloat;
  tokens : pyfloat;
  last : Q
}.

(** [TokenBucket(capacity, refill_rate)] constructed at clock reading [now]
    ([float(capacity)] is checked by the callers, see [conf_bucket]). *)
Definition new_bucket (cap : Z) (rate : pyfloat) (now : Q) : bucket :=
  {| capacity := cap; refill_rate := rate; tokens := FFin (inject_Z cap); last := now |}.

(** One refill step: [elapsed = now - _last; _last = now;
    _tokens = min(capacity, _tokens + elapsed * refill_rate)]. *)
Definition refill (b : bucket) (now : Q) : bucket :=
  {| capacity := capacity b; refill_rate := refill_rate b;
     tokens := min_int (capacity b) (add (tokens b) (mul (FFin (now - last b)) (refill_rate b)));
     last := now |}.

Inductive consume_result := consumed (b : bucket) | waiting (b : bucket).

Definition result_bucket (r : consume_result) : bucket :=
  match r with consumed b => b | waiting b => b end.

(** The [while self._tokens < need] loop; [later] are the clock readings
    after each [asyncio.sleep]; [waiting] when they run out. *)
Fixpoint wait_loop (later : list Q) (b : bucket) (need : pyfloat) : consume_result :=
  if PyFloat.lt (tokens b) need then
    match later with
    | [] => waiting b
    | now2 :: rest => wait_loop rest (refill b now2) need
    end
  else consumed {| capacity := capacity b; refill_rate := refill_rate b;
                   tokens := sub (tokens b) need; last := last b |}.

(** [TokenBucket.consume(weight)], starting at clock reading [now]
    ([need = float(weight)]: the callers pass [weight = 1]). *)
Definition consume (now : Q) (later : list Q) (b : bucket) (weight : Z) : consume_result :=
  wait_loop later (refill b now) (FFin (inject_Z weight)).

(** [RateLimiter._key]. *)
Definition key (exchange endpoint : string) : string :=
  String.append exchange (String.append ":" endpoint).

(** [RateLimiter.allow]: the key of the bucket consumed, the outcome of
    [consume] and the buckets afterwards.  [t_new] is the clock reading
    of the default bucket's construction in [setdefault]. *)
Definition allow (buckets : gmap string bucket) (exchange endpoint : string)
    (weight : Z) (t_new now : Q) (later : list Q)
    : string * consume_result * gmap string bucket :=
  let k := key exchange endpoint in
  let kg := key exchange "global" in
  let go k b := let r := consume now later b weight in
                (k, r, <[k := result_bucket r]> buckets) in
  match buckets !! k with
  | Some b => go k b
  | None =>
    match buckets !! kg with
    | Some b => go kg b
    | None => go kg (new_bucket 1000 (FFin 1000) t_new)
    end
  end.

(** [TokenBucket(int(conf.get("capacity", 10)), float(conf.get("refill", 5.0)))];
    [None] when [conf] is not a dict, a conversion raises, or the
    constructor's [float(capacity)] overflows. *)
Definition conf_bucket (conf : json) (now : Q) : option bucket :=
  match conf with
  | JObj c =>
    cap ← py_int (get_default "capacity" (JInt 10) c);
    rate ← py_float (get_default "refill" (JFloat (FFin 5)) c);
    if int_fits cap then Some (new_bucket cap rate now) else None
  | _ => None
  end.

(** The inner [for ep, conf in cfg.items()] loop; [false] when it raised. *)
Fixpoint update_eps (exch : string) (eps : list (string * json)) (now : Q)
    (m : gmap string bucket) : gmap string bucket * bool :=
  match eps with
  | [] => (m, true)
  | (ep, conf) :: rest =>
    match conf_bucket conf now with
    | Some b => update_eps exch rest now (<[key exch ep := b]> m)
    | None => (m, false)
    end
  end.

Fixpoint update_exchs (config : list (string * json)) (now : Q)
    (m : gmap string bucket) : gmap string bucket * bool :=
  match config with
  | [] => (m, true)
  | (exch, JObj eps) :: rest =>
    let '(m', ok) := update_eps exch eps now m in
    if ok then update_exchs rest now m' else (m', false)
  | (_, _) :: _ => (m, false)
  end.

(** [RateLimiter.update(config)]: the buckets afterwards, and whether the
    call returned normally ([false]: it raised part-way).  The constructors
    of one synchronous call read the clock as [now]. *)
Definition update (m : gmap string bucket) (config : json) (now : Q)
    : gmap string bucket * bool :=
  match config with
  | JObj cfg => update_exchs cfg now m
  | _ => (m, false)
  end.

(** The [(exchange, endpoint)] pairs named in [config]. *)
Definition config_keys (config : json) : list (string * string) :=
  match config with
  | JObj cfg =>
    flat_map (fun '(exch, c) =>
                match c with
                | JObj eps => map (fun '(ep, _) => (exch, ep)) eps
                | _ => []
                end) cfg
  | _ => []
  end.

End RateLimit.

(** ** Exponential moving average ([src/arb/signal/zscore.py], [EMA],
    lines 39-57) *)
Module Ema.
Local Open Scope Q_scope.

Record ema := { alpha : Q; value : option Q }.

(** [EMA.__init__]: raises [ValueError] when [window <= 0]; otherwise
    [alpha = 2.0 / (window + 1.0)] and no value yet. *)
Definition make (window : Z) : option ema :=
  if (window <=? 0)%Z then None
  else Some {| alpha := 2 / (inject_Z window + 1); value := None |}.

(** [EMA.update]: the first value is taken as is; later ones are blended. *)
Definition update (e : ema) (x : Q) : Q * ema :=
  let v := match value e with
           | None => x
           | Some v => alpha e * x + (1 - alpha e) * v
           end in
  (v, {| alpha := alpha e; value := Some v |}).

(** Successive calls of [update] on the values [xs]. *)
Definition feed (e : ema) (xs : list Q) : ema :=
  fold_left (fun e x => snd (update e x)) xs e.

End Ema.

(** ** WebSocket subscriptions ([src/arb/panel/server.py], [WSManager],
    lines 221-256) *)
Module WS.

(** [WSManager.connect]: [self.active.setdefault(pair, set()).add(ws)];
    the set of a pair is kept as a list without repetitions. *)
Definition connect (pair : string) (ws : nat) (act : gmap string (list nat))
    : gmap string (list nat) :=
  let l := match act !! pair with Some l => l | None => [] end in
  <[pair := if existsb (Nat.eqb ws) l then l else l ++ [ws]]> act.

End WS.

(** Successive [RollingZScore.update] calls on the values [xs]. *)
Definition zscore_feed (s : ZScore.rolling) (xs : list R) : ZScore.rolling :=
  fold_left (fun s x => snd (ZScore.update s x)) xs s.

Module Admin.
Import Json.
Local Open Scope string_scope.

(** The panel state the admin endpoints touch: the single row of the
    [admin_config] table (the JSON it holds; [json.loads] of the
    [json.dumps] of a received dict gives the dict back) and
    [app.state.ratelimiter]'s buckets. *)
Record panel := {
  admin_row : option json;
  ratelimiter : gmap string RateLimit.bucket
}.

(** Python truthiness of a JSON value. *)
Definition truthy (v : json) : bool :=
  match v with
  | JNull => false
  | JBool b => b
  | JInt n => negb (Z.eqb n 0)
  | JFloat (PyFloat.FFin q) => negb (Qeq_bool q 0)
  | JFloat _ => true
  | JStr s => negb (String.eqb s "")
  | JArr l => match l with [] => false | _ => true end
  | JObj l => match l with [] => false | _ => true end
  end.

(** The literal default of [api_admin_get]. *)
Definition default_config : json :=
  JObj [("ratelimits",
         JObj [("aster", JObj [("global", JObj [("capacity", JInt 20); ("refill", JFloat (PyFloat.FFin 10))])]);
               ("lighter", JObj [("global", JObj [("capacity", JInt 20); ("refill", JFloat (PyFloat.FFin 10))])])])].

(** [admin_get_config]: [None] when the row is missing. *)
Definition admin_get_config (st : panel) : option json := admin_row st.

(** [admin_set_config]: the upsert of row [id = 1]. *)
Definition admin_set_config (cfg : list (string * json)) (st : panel) : panel :=
  {| admin_row := Some (JObj cfg); ratelimiter := ratelimiter st |}.

(** [GET /api/admin/config]: [cfg or {...default...}]. *)
Definition api_admin_get (st : panel) : json :=
  match admin_get_config st with
  | Some c => if truthy c then c else default_config
  | None => default_config
  end.

(** [POST /api/admin/config]: 400 without a [ratelimits] key; otherwise the
    payload is stored, then [ratelimiter.update(payload.get("ratelimits"))]
    runs, an exception there being a 500 that keeps both the stored row
    and the buckets written before it. *)
Definition api_admin_set (payload : list (string * json)) (now : Q) (st : panel)
    : Ingest.response * panel :=
  if negb (Ingest.has_key "ratelimits" payload) then (Ingest.http_error 400, st)
  else
    let st1 := admin_set_config payload st in
    let '(m, ok) := RateLimit.update (ratelimiter st1) (get_default "ratelimits" JNull payload) now in
    (if ok then Ingest.status_ok else Ingest.http_error 500,
     {| admin_row := admin_row st1; ratelimiter := m |}).

(** [RateLimiter(config)]: no buckets, then [update(config)] when [config]
    is truthy; [None] when that raises. *)
Definition new_limiter (config : json) (now : Q) : option (gmap string RateLimit.bucket) :=
  if truthy config then
    let '(m, ok) := RateLimit.update ∅ config now in
    if ok then Some m else None
  else Some ∅.

(** The limiter [on_startup] builds:
    [RateLimiter(adm.get("ratelimits") if adm else None)]; [None] when
    startup raises ([adm.get] on a truthy non-dict). *)
Definition startup_limiter (st : panel) (now : Q) : option (gmap string RateLimit.bucket) :=
  match admin_get_config st with
  | Some adm =>
    if truthy adm then
      match adm with
      | JObj d => new_limiter (get_default "ratelimits" JNull d) now
      | _ => None
      end
    else new_limiter JNull now
  | None => new_limiter JNull now
  end.

End Admin.

Module Runner.
Import Json.
Local Open Scope string_scope.

(** The limiter [main] builds when [PANEL_ADMIN_URL] answers 200 with the
    JSON [adm]: [RateLimiter()], then [limiter.update(adm["ratelimits"])]
    when [adm and adm.get("ratelimits")]; an exception is swallowed, so the
    buckets written before it stay. *)
Definition runner_limiter (adm : json) (now : Q) : gmap string RateLimit.bucket :=
  if Admin.truthy adm then
    match adm with
    | JObj d =>
      let rl := get_default "ratelimits" JNull d in
      if Admin.truthy rl then fst (RateLimit.update ∅ rl now) else ∅
    | _ => ∅
    end
  else ∅.

End Runner.

(** * Specification-side definitions and concrete inputs *)

(** A bucket as reconstructed at clock reading [t]: same capacity, rate
    and tokens, last refill at [t]. *)
Definition restamp (b : RateLimit.bucket) (t : Q) : RateLimit.bucket :=
  {| RateLimit.capacity := RateLimit.capacity b; RateLimit.refill_rate := RateLimit.refill_rate b;
     RateLimit.tokens := RateLimit.tokens b; RateLimit.last := t |}.

(** [x <= c] for a [float] [x]: a finite value up to [c] or minus
    infinity. *)
Definition fbelow (x : PyFloat.pyfloat) (c : Q) : Prop :=
  match x with
  | PyFloat.FFin q => (q <= c)%Q
  | PyFloat.FNInf => True
  | _ => False
  end.

(** [x >= 0] for a [float] [x]: a finite value from [0] up, or plus
    infinity. *)
Definition fnonneg (x : PyFloat.pyfloat) : Prop :=
  match x with
  | PyFloat.FFin q => (0 <= q)%Q
  | PyFloat.FInf => True
  | _ => False
  end.

(** The keys [update] writes: after [W], those of [m2] are the restamped
    buckets of [m1], and [m2] holds nothing else. *)
Definition limiter_rel (t : Q) (W : list string) (m1 m2 : gmap string RateLimit.bucket) : Prop :=
  forall k, (In k W -> exists b, m1 !! k = Some b /\ m2 !! k = Some (restamp b t)) /\
            (~ In k W -> m2 !! k = None).

(** A window halving at every step. *)
Definition halving_window : list R := [512; 256; 128; 64; 32; 16; 8; 4; 2; 1]%R.

(** Percentile by the index [round (p * (n - 1))] of the source, without
    the clamp. *)
Definition rank_index (s : list Q) (p : Q) : nat :=
  Z.to_nat (Bins.round_half_even (p * inject_Z (Z.of_nat (length s) - 1))).

Definition rank_pct (s : list Q) (p : Q) : option Q :=
  match s with
  | [] => None
  | _ => Some (nth (rank_index s p) s 0%Q)
  end.

(** A stored sample with a z value and no funding countdown. *)
Definition z_row (t : Z) (v : Q) : Bins.row :=
  {| Bins.ts_ms := t; Bins.z := Some v; Bins.fr_countdown_ms := None |}.

(** The synthetic ascending series of the round trip: one entry into
    [[1.5, 2.5)] at [|z| = 2.0], back to [|z| <= 0.5] 3 s later. *)
Definition round_trip_rows : list Bins.row :=
  [z_row 0 0; z_row 1000 2; z_row 2000 (18 # 10); z_row 3000 1; z_row 4000 (4 # 10)].

(** A series whose [[1.5, 2.5)] bin collects the durations 1, 2, 3, 4 s. *)
Definition four_exit_rows : list Bins.row :=
  [z_row 0 0; z_row 1000 2; z_row 2000 0; z_row 3000 2; z_row 4000 2; z_row 5000 0;
   z_row 6000 2; z_row 7000 2; z_row 8000 2; z_row 9000 0; z_row 10000 2;
   z_row 11000 2; z_row 12000 2; z_row 13000 2; z_row 14000 0].

(** The S5 inputs: enter short A / long B, funding rates 0.0001 and 0,
    countdown 3600000 ms, t_exit 600 s, notional 1000. *)
Definition s5_funding : Funding.funding_out :=
  Funding.funding_step Tick.enter_short_A_long_B (Some (1 # 10000)) (Some 0%Q)
    (Some 3600000%Z) (Some 600%Q) 1000.

(** Total quantity offered by a list of book levels. *)
Definition levels_qty (levels : list (Q * Q)) : Q :=
  fold_right (fun lv acc => (snd lv + acc)%Q) 0%Q levels.

(** The S4 books: leg A's bids [[100, 1], [99, 2]]; leg B (buy side)
    asks [[100, 10]]. *)
Definition s4_book_a : Sim.book := {| Sim.bids := [(100, 1); (99, 2)]%Q; Sim.asks := [] |}.
Definition s4_book_b : Sim.book := {| Sim.bids := []; Sim.asks := [(100, 10)]%Q |}.

(** The sockets [WSManager.active] holds for a pair value ([active] is
    keyed by strings). *)
Definition pair_sockets (pair : Json.json) (act : gmap string (list nat)) : list nat :=
  match pair with
  | Json.JStr p => match act !! p with Some l => l | None => [] end
  | _ => []
  end.

(** A payload with every required key whose [price_a] is JSON [null]. *)
Definition null_price_payload : list (string * Json.json) :=
  [("pair", Json.JStr "BTC"); ("ts_ms", Json.JInt 1); ("price_a", Json.JNull);
   ("price_b", Json.JFloat (PyFloat.FFin 1)); ("spread", Json.JFloat (PyFloat.FFin 0));
   ("z", Json.JFloat (PyFloat.FFin 0)); ("mean", Json.JFloat (PyFloat.FFin 0));
   ("std", Json.JFloat (PyFloat.FFin 0))].

Definition empty_server : Ingest.server :=
  {| Ingest.db := []; Ingest.active := ∅; Ingest.sent := [] |}.

(** Numbers sent as strings, in the forms [int()] and [float()] accept. *)
Definition string_number_payload : list (string * Json.json) :=
  [("pair", Json.JStr "BTC"); ("ts_ms", Json.JStr " 1_000 "); ("price_a", Json.JStr "1e3");
   ("price_b", Json.JStr "inf"); ("spread", Json.JStr "-Infinity");
   ("z", Json.JStr "1_0.5"); ("mean", Json.JStr ".5E-1"); ("std", Json.JStr "0")].

(** The [(exchange, endpoint, conf)] entries of a config dict. *)
Definition config_entries (config : Json.json) : list (string * string * Json.json) :=
  match config with
  | Json.JObj cfg =>
    flat_map (fun '(exch, c) =>
                match c with
                | Json.JObj eps => map (fun '(ep, conf) => (exch, ep, conf)) eps
                | _ => []
                end) cfg
  | _ => []
  end.

(** The buckets [bs] installed in turn under the keys of the entries
    [es]. *)
Fixpoint installed (es : list (string * string * Json.json)) (bs : list RateLimit.bucket)
    (m : gmap string RateLimit.bucket) : gmap string RateLimit.bucket :=
  match es, bs with
  | e :: es', b :: bs' => installed es' bs' (<[RateLimit.key (fst (fst e)) (snd (fst e)) := b]> m)
  | _, _ => m
  end.

(** [pre] are the entries of [config] before the point where [update]
    raises: an entry whose [conf] gives no bucket, or an exchange value or
    a config that is not a dict. *)
Definition raise_point (config : Json.json) (pre : list (string * string * Json.json)) (now : Q) : Prop :=
  match config with
  | Json.JObj cfg =>
    exists c1 exch c c2, cfg = c1 ++ (exch, c) :: c2 /\
      match c with
      | Json.JObj eps =>
        exists e1 ep conf e2, eps = e1 ++ (ep, conf) :: e2 /\
          RateLimit.conf_bucket conf now = None /\
          pre = config_entries (Json.JObj c1) ++ map (fun '(ep', conf') => (exch, ep', conf')) e1
      | _ => pre = config_entries (Json.JObj c1)
      end
  | _ => pre = []
  end.

(** A config whose second endpoint has [capacity: null]. *)
Definition null_capacity_config : Json.json :=
  Json.JObj [("aster", Json.JObj [("global", Json.JObj [("capacity", Json.JInt 2)]);
                                  ("depth", Json.JObj [("capacity", Json.JNull)])])].

(** * Properties *)

(** ** The poller tick *)

Lemma Qle_bool_false (a b : Q) : Qle_bool a b = false -> ~ (a <= b)%Q.
Proof. intros H H'. apply Qle_bool_iff in H'. congruence. Qed.

(** C1: the persisted [stale] is 1 exactly when a leg is older than the
    stale threshold or the legs are skewed by more than the skew
    threshold, it is 0 otherwise, and a stale tick's action is "hold". *)
Theorem tick_stale_iff_and_hold :
  forall (zscore enter_z exit_z : Q) (ts_a ts_b dur_a dur_b stale_th skew_th : Z),
  let s := Tick.tick zscore enter_z exit_z ts_a ts_b dur_a dur_b stale_th skew_th in
  (Tick.stale s = 1 <->
     Tick.age_a_ms s > stale_th \/ Tick.age_b_ms s > stale_th \/ Tick.skew_ms s > skew_th)%Z /\
  (Tick.stale s = 0 \/ Tick.stale s = 1)%Z /\
  (Tick.stale s = 1%Z -> Tick.act s = Tick.hold).
Proof.
  intros. subst s. unfold Tick.tick; cbn.
  destruct ((Z.max ts_a ts_b - ts_a >? stale_th) || (Z.max ts_a ts_b - ts_b >? stale_th)
            || (Z.abs (ts_a - ts_b) >? skew_th))%Z eqn:E.
  - repeat rewrite orb_true_iff in E. repeat rewrite Z.gtb_lt in E.
    split; [split; [intros _; lia | intros _; reflexivity] |].
    split; [right; reflexivity | intros _; reflexivity].
  - repeat rewrite orb_false_iff in E. destruct E as [[E1 E2] E3].
    rewrite Z.gtb_ltb, Z.ltb_ge in E1, E2, E3.
    split; [split; [discriminate | lia] |].
    split; [left; reflexivity | discriminate].
Qed.

(** C6: before the stale override the action follows the precedence
    enter-short, enter-long, exit, hold; the S1 tick (spread 0.5, mean 0.3,
    std 0.1, enter 2.0, exit 0.5) has z = 2.0 and enters short A / long B. *)
Theorem tick_action_precedence :
  forall (zscore enter_z exit_z : Q) (ts_a ts_b dur_a dur_b stale_th skew_th : Z),
  let s := Tick.tick zscore enter_z exit_z ts_a ts_b dur_a dur_b stale_th skew_th in
  let a := Tick.decide_action zscore enter_z exit_z in
  Tick.act s = (if (Tick.stale s =? 0)%Z then a else Tick.hold) /\
  ((enter_z <= zscore)%Q -> a = Tick.enter_short_A_long_B) /\
  (~ (enter_z <= zscore)%Q -> (zscore <= - enter_z)%Q -> a = Tick.enter_long_A_short_B) /\
  (~ (enter_z <= zscore)%Q -> ~ (zscore <= - enter_z)%Q -> (Qabs zscore <= exit_z)%Q ->
     a = Tick.exit) /\
  (~ (enter_z <= zscore)%Q -> ~ (zscore <= - enter_z)%Q -> ~ (Qabs zscore <= exit_z)%Q ->
     a = Tick.hold) /\
  (let z1 := Tick.z_of (100 - 995 / 10) (3 / 10) (1 / 10) in
   (z1 == 2)%Q /\
   Tick.act (Tick.tick z1 2 (1 / 2) 0 0 0 0 3000 500) = Tick.enter_short_A_long_B /\
   Tick.stale (Tick.tick z1 2 (1 / 2) 0 0 0 0 3000 500) = 0%Z).
Proof.
  intros. subst s a. unfold Tick.decide_action.
  split.
  { unfold Tick.tick; cbn.
    destruct ((Z.max ts_a ts_b - ts_a >? stale_th) || (Z.max ts_a ts_b - ts_b >? stale_th)
              || (Z.abs (ts_a - ts_b) >? skew_th))%Z; reflexivity. }
  split; [intros H; apply Qle_bool_iff in H; rewrite H; reflexivity |].
  split.
  { intros H1 H2. destruct (Qle_bool enter_z zscore) eqn:E1;
      [apply Qle_bool_iff in E1; contradiction |].
    apply Qle_bool_iff in H2. rewrite H2. reflexivity. }
  split.
  { intros H1 H2 H3. destruct (Qle_bool enter_z zscore) eqn:E1;
      [apply Qle_bool_iff in E1; contradiction |].
    destruct (Qle_bool zscore (- enter_z)) eqn:E2;
      [apply Qle_bool_iff in E2; contradiction |].
    apply Qle_bool_iff in H3. rewrite H3. reflexivity. }
  split.
  { intros H1 H2 H3. destruct (Qle_bool enter_z zscore) eqn:E1;
      [apply Qle_bool_iff in E1; contradiction |].
    destruct (Qle_bool zscore (- enter_z)) eqn:E2;
      [apply Qle_bool_iff in E2; contradiction |].
    destruct (Qle_bool (Qabs zscore) exit_z) eqn:E3;
      [apply Qle_bool_iff in E3; contradiction |].
    reflexivity. }
  vm_compute. split; [reflexivity | split; reflexivity].
Qed.

(** ** Rolling z-score *)

Lemma reachable_inv (W : nat) (s : ZScore.rolling) :
  ZScore.reachable W s ->
  ZScore.window s = W /\ (length (ZScore.buf s) <= W)%nat /\ (1 < W)%nat.
Proof.
  induction 1 as [s Hm | s x _ IH].
  - unfold ZScore.make in Hm. destruct (Nat.leb W 1) eqn:E; [discriminate |].
    injection Hm as <-. apply Nat.leb_gt in E. cbn. lia.
  - destruct IH as (Hw & Hl & HW). unfold ZScore.update; cbn.
    split; [exact Hw |]. split; [| exact HW].
    unfold ZScore.deque_append. rewrite Hw.
    destruct (Nat.ltb W (length (ZScore.buf s ++ [x]))) eqn:E.
    + rewrite length_tl, length_app; cbn. lia.
    + apply Nat.ltb_ge in E. exact E.
Qed.

Lemma deque_append_fifo (maxlen : nat) (b : list R) (x : R) :
  (0 < maxlen)%nat -> (length b <= maxlen)%nat ->
  ZScore.deque_append maxlen b x =
  (if Nat.ltb (length b) maxlen then b ++ [x] else tl b ++ [x]).
Proof.
  intros Hpos Hle. unfold ZScore.deque_append.
  rewrite length_app; cbn [length].
  destruct (Nat.ltb (length b) maxlen) eqn:E.
  - apply Nat.ltb_lt in E. replace (Nat.ltb maxlen (length b + 1)) with false
      by (symmetry; apply Nat.ltb_ge; lia). reflexivity.
  - apply Nat.ltb_ge in E. replace (Nat.ltb maxlen (length b + 1)) with true
      by (symmetry; apply Nat.ltb_lt; lia).
    destruct b as [| y b']; cbn in *; [lia | reflexivity].
Qed.

Lemma sumR_sq_nonneg (m : R) (l : list R) :
  (0 <= ZScore.sumR (map (fun x => (x - m) ^ 2) l))%R.
Proof.
  induction l as [| a l IH]; cbn [map ZScore.sumR fold_right]; [lra |].
  pose proof (pow2_ge_0 (a - m)). unfold ZScore.sumR in IH. lra.
Qed.

(** C2: [update x] appends [x] to the FIFO window of capacity [W]
    (evicting the oldest value when full); with [n] the new size, [mean]
    is the window's mean, [std] the sample standard deviation when
    [n > 1] and 0 when [n = 1], and [z = (x - mean) / std] when [std > 0],
    0 otherwise. *)
Theorem rolling_update_spec (W : nat) (s : ZScore.rolling) (x : R) :
  (1 < W)%nat -> ZScore.reachable W s ->
  let '((z, mean, std), s') := ZScore.update s x in
  let n := length (ZScore.buf s') in
  ZScore.window s' = W /\
  ZScore.buf s' = (if Nat.ltb (length (ZScore.buf s)) W
                   then ZScore.buf s ++ [x] else tl (ZScore.buf s) ++ [x]) /\
  mean = (ZScore.sumR (ZScore.buf s') / INR n)%R /\
  ((1 < n)%nat ->
     std = sqrt (ZScore.sumR (map (fun xi => (xi - mean) ^ 2)%R (ZScore.buf s')) / INR (n - 1))%R) /\
  (n = 1%nat -> std = 0%R) /\
  ((0 < std)%R -> z = ((x - mean) / std)%R) /\
  (~ (0 < std)%R -> z = 0%R).
Proof.
  intros HW Hr. destruct (reachable_inv W s Hr) as (Hw & Hl & _).
  unfold ZScore.update. cbn [ZScore.buf ZScore.window].
  rewrite Hw, (deque_append_fifo W (ZScore.buf s) x ltac:(lia) Hl).
  set (b := if Nat.ltb (length (ZScore.buf s)) W
            then ZScore.buf s ++ [x] else tl (ZScore.buf s) ++ [x]).
  split; [reflexivity |]. split; [reflexivity |]. split; [reflexivity |].
  split.
  { intros Hn. apply Nat.ltb_lt in Hn as Hb. rewrite Hb. f_equal.
    apply Rmax_left.
    unfold Rdiv. apply Rmult_le_pos; [apply sumR_sq_nonneg |].
    left. apply Rinv_0_lt_compat, lt_0_INR. lia. }
  split.
  { intros Hn. rewrite Hn. reflexivity. }
  split.
  { intros Hs. destruct (Rlt_dec 0 _) as [_ | Hn]; [reflexivity | contradiction]. }
  intros Hs. destruct (Rlt_dec 0 _) as [Hp | _]; [contradiction | reflexivity].
Qed.

(** A [RollingZScore(3)] fed 1 then 2: the window is [1; 2]. *)
Lemma rolling_update_spec_witness :
  (1 < 3)%nat /\
  ZScore.reachable 3 (snd (ZScore.update {| ZScore.window := 3; ZScore.buf := [] |} 1%R)) /\
  ZScore.buf (snd (ZScore.update
                     (snd (ZScore.update {| ZScore.window := 3; ZScore.buf := [] |} 1%R)) 2%R))
  = [1%R; 2%R].
Proof.
  assert (Hr : ZScore.reachable 3
                 (snd (ZScore.update {| ZScore.window := 3; ZScore.buf := [] |} 1%R)))
    by (apply ZScore.reach_update, ZScore.reach_make; reflexivity).
  split; [lia |]. split; [exact Hr |].
  pose proof (rolling_update_spec 3 _ 2%R ltac:(lia) Hr) as H.
  destruct (ZScore.update _ 2%R) as [[[z m] sd] s'] eqn:E.
  destruct H as (_ & Hb & _). cbn [snd]. rewrite Hb. reflexivity.
Defined.

(** ** AR(1) reversion estimator *)

Lemma length_removelast_R (l : list R) : length (removelast l) = (length l - 1)%nat.
Proof.
  induction l as [| a l IH]; [reflexivity |].
  destruct l as [| b l]; [reflexivity |].
  change (removelast (a :: b :: l)) with (a :: removelast (b :: l)).
  cbn [length] in *. rewrite IH. lia.
Qed.

Lemma py_div_nz (a b : R) : b <> 0%R -> Reversion.py_div a b = Some (a / b)%R.
Proof.
  intros H. unfold Reversion.py_div.
  destruct (Req_dec_T b 0); [contradiction | reflexivity].
Qed.

Lemma py_div_z (a : R) : Reversion.py_div a 0 = None.
Proof.
  unfold Reversion.py_div. destruct (Req_dec_T 0 0); [reflexivity | contradiction].
Qed.

Lemma py_log_pos (x : R) : (0 < x)%R -> Reversion.py_log x = Some (ln x).
Proof.
  intros H. unfold Reversion.py_log. destruct (Rlt_dec 0 x); [reflexivity | contradiction].
Qed.

Lemma bind_some {A B} (v : A) (f : A -> option B) : (x ← Some v; f x) = f v.
Proof. reflexivity. Qed.

Lemma ln2_pos : (0 < ln 2)%R.
Proof. rewrite <- ln_1. apply ln_increasing; lra. Qed.

(** Closed form of [estimate_reversion_times]: the early returns, then
    the half-life, and the [poll_ms = 0] corner where [k = ln 2 /
    half_life_s] divides by zero. *)
Lemma reversion_closed_form (B : list R) (z e : R) (p : Z) :
  Reversion.estimate_reversion_times B z e p =
  if Nat.ltb (length B) 10 then (None, None)
  else if Req_dec_T (Reversion.ols_den B) 0 then (None, None)
  else if Rle_dec (Reversion.ols_phi B) 0 then (None, None)
  else if Rle_dec (9999 / 10000) (Reversion.ols_phi B) then (None, None)
  else
    let hl := (ln 2 / (- ln (Reversion.ols_phi B)) * (IZR p / 1000))%R in
    if Rle_dec e 0 then (Some hl, Some 0%R)
    else if Rle_dec (Rabs z) e then (Some hl, Some 0%R)
    else if Z.eq_dec p 0%Z then (None, None)
    else (Some hl, Some (ln (Rabs z / e) * hl / ln 2)%R).
Proof.
  unfold Reversion.estimate_reversion_times, Reversion.reversion_body,
    Reversion.ols_phi, Reversion.ols_den, Reversion.ols_num, Reversion.ols_mean.
  destruct (Nat.ltb (length B) 10) eqn:HL; [reflexivity |].
  apply Nat.ltb_ge in HL.
  assert (Hx : INR (length (removelast B)) <> 0%R)
    by (rewrite length_removelast_R; apply not_0_INR; lia).
  assert (Hy : INR (length (tl B)) <> 0%R)
    by (rewrite length_tl; apply not_0_INR; lia).
  rewrite (py_div_nz _ _ Hx), bind_some, (py_div_nz _ _ Hy), bind_some.
  cbv zeta.
  set (num := ZScore.sumR (map _ (combine _ _))).
  set (den := ZScore.sumR (map _ (removelast B))).
  destruct (Req_dec_T den 0) as [Hd | Hd]; [reflexivity |].
  rewrite (py_div_nz _ _ Hd), bind_some.
  destruct (Rle_dec (num / den) 0) as [H0 | H0]; [reflexivity |].
  destruct (Rle_dec (9999 / 10000) (num / den)) as [H1 | H1]; [reflexivity |].
  apply Rnot_le_lt in H0. apply Rnot_le_lt in H1.
  rewrite (py_log_pos 2) by lra. rewrite bind_some.
  rewrite (py_log_pos (num / den)) by lra. rewrite bind_some.
  assert (Hln : (ln (num / den) < 0)%R) by (rewrite <- ln_1; apply ln_increasing; lra).
  rewrite (py_div_nz (ln 2) (- ln (num / den)) ltac:(lra)), bind_some.
  pose proof ln2_pos as H2.
  set (hls := (ln 2 / - ln (num / den))%R).
  assert (Hhls : (0 < hls)%R) by (unfold hls; apply Rdiv_lt_0_compat; lra).
  destruct (Rle_dec e 0) as [He | He]; [reflexivity |].
  destruct (Rle_dec (Rabs z) e) as [Hz | Hz]; [reflexivity |].
  apply Rnot_le_lt in He. apply Rnot_le_lt in Hz.
  destruct (Z.eq_dec p 0%Z) as [Hp | Hp].
  { subst p. replace (hls * (IZR 0 / 1000))%R with 0%R by (unfold Rdiv; ring).
    rewrite py_div_z. reflexivity. }
  assert (Hhl : (hls * (IZR p / 1000))%R <> 0%R).
  { apply Rmult_integral_contrapositive_currified; [lra |].
    apply eq_IZR_contrapositive in Hp. unfold Rdiv.
    apply Rmult_integral_contrapositive_currified;
      [exact Hp | apply Rinv_neq_0_compat; lra]. }
  rewrite (py_div_nz _ _ Hhl), bind_some.
  rewrite (py_div_nz (Rabs z) e ltac:(lra)), bind_some.
  assert (Hr : (0 < Rabs z / e)%R) by (apply Rdiv_lt_0_compat; lra).
  rewrite (py_log_pos _ Hr), bind_some.
  assert (Hk : (ln 2 / (hls * (IZR p / 1000)))%R <> 0%R).
  { intros Hc. apply (Rmult_eq_compat_r (hls * (IZR p / 1000))) in Hc.
    field_simplify in Hc;
      [lra | split; [apply eq_IZR_contrapositive; exact Hp | lra]]. }
  rewrite (py_div_nz _ _ Hk).
  f_equal. f_equal. field.
  split; [apply Rgt_not_eq; lra |].
  split; [apply eq_IZR_contrapositive; exact Hp | apply Rgt_not_eq; lra].
Qed.

(** Outside the [poll_ms = 0] corner the code computes the specified
    values. *)
Lemma reversion_nonzero_poll (B : list R) (z e : R) (p : Z) :
  (p <> 0)%Z \/ (e <= 0)%R \/ (Rabs z <= e)%R ->
  Reversion.estimate_reversion_times B z e p = Reversion.reversion_claimed B z e p.
Proof.
  intros Hp. rewrite reversion_closed_form. unfold Reversion.reversion_claimed.
  destruct (Nat.ltb (length B) 10); [reflexivity |].
  destruct (Req_dec_T (Reversion.ols_den B) 0); [reflexivity |].
  destruct (Rle_dec (Reversion.ols_phi B) 0); [reflexivity |].
  destruct (Rle_dec (9999 / 10000) (Reversion.ols_phi B)); [reflexivity |].
  cbv zeta.
  destruct (Rle_dec e 0) as [He | He]; [reflexivity |].
  destruct (Rle_dec (Rabs z) e) as [Hz | Hz]; [reflexivity |].
  destruct (Z.eq_dec p 0%Z) as [H | H]; [| reflexivity].
  exfalso. destruct Hp as [Hp | [Hp | Hp]]; [contradiction | lra | lra].
Qed.

(** With [poll_ms = 0] and [|z| > exit_z > 0] the [except] returns
    [(None, None)]. *)
Lemma reversion_zero_poll (B : list R) (z e : R) :
  (0 < e)%R -> (e < Rabs z)%R ->
  Reversion.estimate_reversion_times B z e 0 = (None, None).
Proof.
  intros He Hz. rewrite reversion_closed_form.
  destruct (Nat.ltb (length B) 10); [reflexivity |].
  destruct (Req_dec_T (Reversion.ols_den B) 0); [reflexivity |].
  destruct (Rle_dec (Reversion.ols_phi B) 0); [reflexivity |].
  destruct (Rle_dec (9999 / 10000) (Reversion.ols_phi B)); [reflexivity |].
  cbv zeta.
  destruct (Rle_dec e 0); [lra |].
  destruct (Rle_dec (Rabs z) e); [lra |].
  reflexivity.
Qed.

Lemma sumR_scale (c : R) (l : list R) :
  ZScore.sumR (map (fun v => c * v)%R l) = (c * ZScore.sumR l)%R.
Proof.
  induction l as [| a l IH]; cbn [map ZScore.sumR fold_right] in *; [ring |].
  unfold ZScore.sumR in IH. rewrite IH. ring.
Qed.

Lemma sum_cross_scaled (c m : R) (l : list R) :
  ZScore.sumR (map (fun '(a, b) => (a - m) * (b - c * m))%R
                   (combine l (map (fun v => c * v)%R l)))
  = (c * ZScore.sumR (map (fun a => (a - m) ^ 2)%R l))%R.
Proof.
  induction l as [| a l IH]; cbn [map combine ZScore.sumR fold_right] in *; [ring |].
  unfold ZScore.sumR in IH. rewrite IH. ring.
Qed.

(** When each value is [c] times the previous one, the OLS slope is [c]. *)
Lemma ols_phi_geometric (c : R) (B : list R) :
  tl B = map (fun v => c * v)%R (removelast B) ->
  Reversion.ols_den B <> 0%R ->
  Reversion.ols_phi B = c.
Proof.
  intros Hy Hd. unfold Reversion.ols_phi.
  assert (Hn : Reversion.ols_num B = (c * Reversion.ols_den B)%R).
  { unfold Reversion.ols_num, Reversion.ols_den. cbv zeta. rewrite Hy.
    replace (Reversion.ols_mean (map (fun v => c * v)%R (removelast B)))
      with (c * Reversion.ols_mean (removelast B))%R.
    - apply sum_cross_scaled.
    - unfold Reversion.ols_mean. rewrite sumR_scale, length_map.
      unfold Rdiv. ring. }
  rewrite Hn. field. exact Hd.
Qed.

Lemma halving_window_shift :
  tl halving_window = map (fun v => (1 / 2) * v)%R (removelast halving_window).
Proof.
  cbn [tl removelast map halving_window].
  repeat (apply (f_equal2 cons); [lra |]). reflexivity.
Qed.

Lemma halving_window_den : Reversion.ols_den halving_window <> 0%R.
Proof.
  apply Rgt_not_eq.
  unfold Reversion.ols_den, Reversion.ols_mean. cbv zeta.
  cbn [removelast length map ZScore.sumR fold_right halving_window].
  replace (INR 9) with 9%R by (cbn [INR]; ring).
  lra.
Qed.

(** C3 (amended): the estimator returns the specified [(half_life_s,
    t_exit_s)] (with the [(None, None)] early returns) whenever
    [poll_ms <> 0] or [t_exit_s] is clamped to 0; at [poll_ms = 0] with
    [|z| > exit_z > 0] the division [ln 2 / half_life_s] raises and the
    result is [(None, None)]. *)
Theorem reversion_times_spec (B : list R) (z e : R) (p : Z) :
  ((p <> 0)%Z \/ (e <= 0)%R \/ (Rabs z <= e)%R ->
     Reversion.estimate_reversion_times B z e p = Reversion.reversion_claimed B z e p) /\
  (p = 0%Z -> (0 < e)%R -> (e < Rabs z)%R ->
     Reversion.estimate_reversion_times B z e p = (None, None)).
Proof.
  split; [apply reversion_nonzero_poll |].
  intros -> He Hz. apply reversion_zero_poll; assumption.
Qed.

(** C3 counterexample: the halving window (slope 1/2), z = 2, exit_z = 0.5
    and poll_ms = 0: the specification gives [(Some 0, Some 0)], the code
    [(None, None)]. *)
Lemma reversion_times_counterexample :
  Reversion.estimate_reversion_times halving_window 2 (1 / 2) 0
  <> Reversion.reversion_claimed halving_window 2 (1 / 2) 0.
Proof.
  rewrite reversion_zero_poll by (try rewrite Rabs_right; lra).
  unfold Reversion.reversion_claimed.
  replace (Nat.ltb (length halving_window) 10) with false by reflexivity.
  pose proof halving_window_den as Hd.
  pose proof (ols_phi_geometric (1 / 2) halving_window halving_window_shift Hd) as Hphi.
  destruct (Req_dec_T (Reversion.ols_den halving_window) 0); [contradiction |].
  rewrite Hphi.
  destruct (Rle_dec (1 / 2) 0); [lra |].
  destruct (Rle_dec (9999 / 10000) (1 / 2)); [lra |].
  discriminate.
Qed.

Lemma qlt_true (a b : Q) : qlt a b = true <-> (a < b)%Q.
Proof.
  unfold qlt. rewrite negb_true_iff. split.
  - intros H. apply Qnot_le_lt. intros Hle. apply Qle_bool_iff in Hle. congruence.
  - intros H. destruct (Qle_bool b a) eqn:E; [| reflexivity].
    apply Qle_bool_iff in E. exfalso. apply (Qlt_not_le a b); assumption.
Qed.

Lemma qlt_false (a b : Q) : qlt a b = false <-> (b <= a)%Q.
Proof.
  unfold qlt. rewrite negb_false_iff. apply Qle_bool_iff.
Qed.

Lemma round_half_even_bounds (q : Q) (m : Z) :
  (0 <= q)%Q -> (q <= inject_Z m)%Q ->
  (0 <= Bins.round_half_even q <= m)%Z.
Proof.
  intros H0 Hm. unfold Bins.round_half_even.
  pose proof (Qfloor_le q) as Hfl.
  pose proof (Qlt_floor q) as Hlt.
  assert (Hf0 : (0 <= Qfloor q)%Z).
  { rewrite <- (Qfloor_Z 0). apply Qfloor_resp_le. exact H0. }
  assert (Hfm : (Qfloor q <= m)%Z).
  { rewrite <- (Qfloor_Z m). apply Qfloor_resp_le. exact Hm. }
  assert (Hup : (Qfloor q + 1 <= m)%Z \/ Qfloor q = m) by lia.
  set (f := Qfloor q) in *.
  destruct (qlt (q - inject_Z f) (1 # 2)) eqn:E1; [lia |].
  apply qlt_false in E1.
  assert (Hf1 : (f + 1 <= m)%Z).
  { destruct Hup as [Hup | Hup]; [exact Hup |].
    exfalso. subst f. rewrite Hup in E1.
    assert (q == inject_Z m)%Q.
    { apply Qle_antisym; [exact Hm | rewrite <- Hup; exact Hfl]. }
    assert (H0m : (q - inject_Z m == 0)%Q) by (rewrite H; ring).
    rewrite H0m in E1.
    apply (Qle_not_lt _ _ E1). reflexivity. }
  destruct (qlt (1 # 2) (q - inject_Z f)); [lia |].
  destruct (Z.even f); lia.
Qed.

Lemma pct_rank (s : list Q) (p : Q) :
  (0 <= p <= 1)%Q ->
  Bins.pct s p = rank_pct s p /\ (s <> [] -> (rank_index s p < length s)%nat).
Proof.
  intros [Hp0 Hp1].
  destruct s as [| a s']; [split; [reflexivity | congruence] |].
  set (s := a :: s').
  assert (Hlen : (0 < length s)%nat) by (cbn; lia).
  set (m := (Z.of_nat (length s) - 1)%Z).
  assert (Hm0 : (0 <= m)%Z) by lia.
  assert (Hb : (0 <= Bins.round_half_even (p * inject_Z m) <= m)%Z).
  { apply round_half_even_bounds.
    - apply Qmult_le_0_compat; [exact Hp0 |].
      change 0%Q with (inject_Z 0). rewrite <- Zle_Qle. exact Hm0.
    - rewrite <- (Qmult_1_l (inject_Z m)) at 2.
      apply Qmult_le_compat_r; [exact Hp1 |].
      change 0%Q with (inject_Z 0). rewrite <- Zle_Qle. exact Hm0. }
  split.
  - unfold Bins.pct, rank_pct, rank_index. fold s. fold m.
    replace (Nat.eqb (length s) 0) with false by (cbn; reflexivity).
    f_equal. f_equal. f_equal. lia.
  - intros _. unfold rank_index. fold m. lia.
Qed.

Lemma insert_q_perm (a : Q) (l : list Q) : Permutation (Bins.insert_q a l) (a :: l).
Proof.
  induction l as [| b l IH]; cbn; [reflexivity |].
  destruct (qlt b a).
  - rewrite IH. apply perm_swap.
  - reflexivity.
Qed.

Lemma sort_q_perm (l : list Q) : Permutation (Bins.sort_q l) l.
Proof.
  induction l as [| a l IH]; cbn; [reflexivity |].
  rewrite insert_q_perm. apply perm_skip. exact IH.
Qed.

Lemma insert_q_hd (a b : Q) (l : list Q) :
  (b <= a)%Q -> HdRel Qle b l -> HdRel Qle b (Bins.insert_q a l).
Proof.
  intros Hba Hl. destruct l as [| c l]; cbn.
  - constructor. exact Hba.
  - destruct (qlt c a); constructor; [inversion Hl; assumption | exact Hba].
Qed.

Lemma insert_q_sorted (a : Q) (l : list Q) :
  Sorted Qle l -> Sorted Qle (Bins.insert_q a l).
Proof.
  induction l as [| b l IH]; intros Hs; cbn.
  - repeat constructor.
  - inversion Hs as [| ? ? Hs' Hhd]; subst.
    destruct (qlt b a) eqn:E.
    + apply qlt_true in E. constructor; [exact (IH Hs') |].
      apply insert_q_hd; [apply Qlt_le_weak; exact E | exact Hhd].
    + apply qlt_false in E. constructor; [exact Hs |]. constructor. exact E.
Qed.

Lemma sort_q_sorted (l : list Q) : Sorted Qle (Bins.sort_q l).
Proof.
  induction l as [| a l IH]; cbn; [constructor |].
  apply insert_q_sorted. exact IH.
Qed.

Lemma all_some_map {A B} (f : A -> option B) (l : list A) (bs : list B) :
  Bins.all_some (map f l) = Some bs ->
  Forall (fun b => exists x, In x l /\ f x = Some b) bs.
Proof.
  revert bs. induction l as [| x l IH]; intros bs H; cbn in H.
  - injection H as <-. constructor.
  - destruct (f x) as [b |] eqn:Ef; [| discriminate].
    destruct (Bins.all_some (map f l)) as [r |] eqn:Er; [| discriminate].
    injection H as <-. constructor.
    + exists x. split; [left; reflexivity | exact Ef].
    + eapply Forall_impl; [exact (IH r eq_refl) |].
      intros b' [x' [Hin Hx']]. exists x'. split; [right; exact Hin | exact Hx'].
Qed.

Lemma pct_rank_at (s : list Q) (p : Q) :
  (0 <= p)%Q -> (p <= 1)%Q ->
  Bins.pct s p = rank_pct s p /\ (s <> [] -> (rank_index s p < length s)%nat).
Proof. intros H0 H1. apply pct_rank. split; assumption. Qed.

(** C4 (amended): every bin the endpoint reports holds the durations the
    walk collected, sorted ascending; its four percentiles are the element
    at index [round(p * (n - 1))] (Python's half-to-even [round]) of the
    [n] sorted durations, an index always in range, and [None] when there
    are none.  In the round trip the [[1.5, 2.5)] bin reports one sample
    with median 3 s. *)
Theorem bins_percentiles_spec (rows : list Bins.row) (now days : Z) (e : Q)
    (edges : list Q) (bs : list Bins.bin_stat) :
  (Bins.api_stats_bins rows now days e edges = Some bs ->
   Forall (fun b =>
     In (Bins.bin_lo b, Bins.bin_hi b) (Bins.parse_edges edges) /\
     exists samples prob,
       Bins.walk (Bins.bin_lo b) (Bins.bin_hi b) e
         (Bins.abs_zs (Bins.series rows now days))
         (map Bins.ts_ms (Bins.series rows now days))
         (map Bins.fr_countdown_ms (Bins.series rows now days))
         (S (length (Bins.abs_zs (Bins.series rows now days)))) 1 [] []
       = Some (samples, prob) /\
       Sorted Qle (Bins.sort_q samples) /\
       Permutation (Bins.sort_q samples) samples /\
       Bins.samples_n b = length samples /\
       Forall (fun pv =>
         snd pv = rank_pct (Bins.sort_q samples) (fst pv) /\
         (samples <> [] -> (rank_index (Bins.sort_q samples) (fst pv) < length samples)%nat))
         [(1 # 4, Bins.p25_s b); (1 # 2, Bins.median_s b);
          (3 # 4, Bins.p75_s b); (9 # 10, Bins.p90_s b)]) bs) /\
  match Bins.api_stats_bins round_trip_rows 5000 7 (1 # 2) [3 # 2; 5 # 2] with
  | Some (b :: _) =>
      Bins.bin_lo b = 3 # 2 /\ Bins.bin_hi b = Some (5 # 2) /\
      Bins.samples_n b = 1%nat /\ Bins.median_s b = Some 3%Q
  | _ => False
  end.
Proof.
  split; [| vm_compute; repeat split].
  intros H. unfold Bins.api_stats_bins in H. apply all_some_map in H.
  eapply Forall_impl; [exact H |].
  intros b [[lo hi] [Hin Hb]]. unfold Bins.bin_stats in Hb.
  destruct (Bins.walk lo hi e _ _ _ _ 1 [] []) as [[samples prob] |] eqn:Ew;
    [| discriminate].
  injection Hb as <-. cbn [Bins.bin_lo Bins.bin_hi Bins.samples_n Bins.p25_s
    Bins.median_s Bins.p75_s Bins.p90_s].
  pose proof (sort_q_perm samples) as Hperm.
  pose proof (Permutation_length Hperm) as Hlen.
  assert (Hne : samples <> [] -> Bins.sort_q samples <> []).
  { intros Hs Hs'. apply Hs. apply Permutation_nil. rewrite <- Hs'.
    exact Hperm. }
  split; [exact Hin |].
  exists samples, prob. split; [exact Ew |].
  split; [apply sort_q_sorted |]. split; [exact Hperm |]. split; [exact Hlen |].
  rewrite <- Hlen.
  repeat match goal with
  | |- Forall _ ((?p, _) :: _) =>
    constructor; [cbn [fst snd];
    destruct (pct_rank_at (Bins.sort_q samples) p
                ltac:(apply Qle_bool_imp_le; reflexivity)
                ltac:(apply Qle_bool_imp_le; reflexivity)) as [Hp Hr];
    split; [exact Hp | intros Hs; exact (Hr (Hne Hs))] |]
  end.
  constructor.
Qed.

(** C4 counterexample: with durations 1, 2, 3, 4 s in the [[1.5, 2.5)] bin
    the endpoint reports median 3 s (index [round 1.5 = 2]), while the
    nearest-rank median (rank [ceil 2 = 2]) is 2 s. *)
Lemma bins_nearest_rank_counterexample :
  match Bins.api_stats_bins four_exit_rows 20000 7 (1 # 2) [3 # 2; 5 # 2] with
  | Some (b :: _) =>
      Bins.samples_n b = 4%nat /\ Bins.median_s b = Some 3%Q /\
      Bins.median_s b <> Bins.nearest_rank [1; 2; 3; 4]%Q (1 # 2)
  | _ => False
  end.
Proof.
  vm_compute. split; [reflexivity |]. split; [reflexivity |].
  intros H. injection H. discriminate.
Qed.

Lemma qlt_false_le (a b : Q) : qlt a b = false -> (b <= a)%Q.
Proof. apply qlt_false. Qed.

(** C5 (amended): for an entering action with both rates known and a
    non-zero countdown and [t_exit_s] (Python truthiness: 0 counts as
    absent), [net_rate] is the short leg's rate minus the long leg's, the
    advice is the code's first (Chinese) string when
    [t_exit_s < time_to_funding_s] and its second one otherwise,
    [net_funding_cycle_usd = notional * net_rate], and
    [expect_funding_next_usd] is that value when
    [t_exit_s >= time_to_funding_s] and 0 otherwise; with
    [time_to_funding_s = max(0, trunc(countdown_ms / 1000))]. *)
Theorem funding_advice_spec (act : Tick.action) (fa fb : Q) (c : Z) (t notional : Q) :
  act = Tick.enter_short_A_long_B \/ act = Tick.enter_long_A_short_B ->
  c <> 0%Z -> ~ (t == 0)%Q ->
  let out := Funding.funding_step act (Some fa) (Some fb) (Some c) (Some t) notional in
  let ttf := inject_Z (Z.max 0 (Z.quot c 1000)) in
  let net := match act with
             | Tick.enter_long_A_short_B => (fb - fa)%Q
             | _ => (fa - fb)%Q
             end in
  ((t < ttf)%Q -> Funding.advice out = Some Funding.advice_before_funding /\
                  Funding.expect_funding_next_usd out = Some 0%Q) /\
  ((ttf <= t)%Q -> Funding.advice out = Some Funding.advice_span_funding /\
                   Funding.expect_funding_next_usd out = Some (notional * net)%Q) /\
  Funding.net_funding_cycle_usd out = Some (notional * net)%Q /\
  (act = Tick.enter_short_A_long_B -> net = (fa - fb)%Q) /\
  (act = Tick.enter_long_A_short_B -> net = (fb - fa)%Q).
Proof.
  intros Hact Hc Ht out ttf net.
  assert (Hc' : (c =? 0)%Z = false) by (apply Z.eqb_neq; exact Hc).
  assert (Ht' : Qeq_bool t 0 = false).
  { destruct (Qeq_bool t 0) eqn:E; [| reflexivity].
    apply Qeq_bool_iff in E. contradiction. }
  assert (Hnet : Funding.net_rate_of act (Some fa) (Some fb) = Some net).
  { destruct Hact as [-> | ->]; reflexivity. }
  assert (Hout : out =
    {| Funding.advice := Some (if qlt t ttf then Funding.advice_before_funding
                               else Funding.advice_span_funding);
       Funding.net_funding_cycle_usd := Some (notional * net)%Q;
       Funding.expect_funding_next_usd :=
         Some (if Qle_bool ttf t then (notional * net)%Q else 0%Q) |}).
  { unfold out, Funding.funding_step. rewrite Hc', Ht'. cbn [negb andb].
    rewrite Hnet. reflexivity. }
  rewrite Hout. cbn [Funding.advice Funding.net_funding_cycle_usd
                     Funding.expect_funding_next_usd].
  split; [| split; [| split; [reflexivity | split]]].
  - intros Hlt.
    assert (E1 : qlt t ttf = true) by (apply qlt_true; exact Hlt).
    assert (E2 : Qle_bool ttf t = false).
    { destruct (Qle_bool ttf t) eqn:E; [| reflexivity].
      apply Qle_bool_iff in E. exfalso. apply (Qlt_not_le t ttf); assumption. }
    rewrite E1, E2. split; reflexivity.
  - intros Hle.
    assert (E1 : qlt t ttf = false) by (apply qlt_false; exact Hle).
    assert (E2 : Qle_bool ttf t = true) by (apply Qle_bool_iff; exact Hle).
    rewrite E1, E2. split; reflexivity.
  - intros ->. reflexivity.
  - intros ->. reflexivity.
Qed.

Lemma funding_advice_spec_witness :
  let out := s5_funding in
  let ttf := inject_Z (Z.max 0 (Z.quot 3600000 1000)) in
  let net := ((1 # 10000) - 0)%Q in
  ((600 < ttf)%Q -> Funding.advice out = Some Funding.advice_before_funding /\
                    Funding.expect_funding_next_usd out = Some 0%Q) /\
  ((ttf <= 600)%Q -> Funding.advice out = Some Funding.advice_span_funding /\
                     Funding.expect_funding_next_usd out = Some (1000 * net)%Q) /\
  Funding.net_funding_cycle_usd out = Some (1000 * net)%Q /\
  (Tick.enter_short_A_long_B = Tick.enter_short_A_long_B -> net = ((1 # 10000) - 0)%Q) /\
  (Tick.enter_short_A_long_B = Tick.enter_long_A_short_B -> net = (0 - (1 # 10000))%Q).
Proof.
  exact (funding_advice_spec Tick.enter_short_A_long_B (1 # 10000) 0 3600000 600 1000
           (or_introl eq_refl) ltac:(discriminate) ltac:(vm_compute; discriminate)).
Defined.

(** C5 counterexample: on the S5 inputs the code's advice is its own
    Chinese sentence, not the English string the specification quotes. *)
Lemma funding_advice_counterexample :
  Funding.advice s5_funding = Some Funding.advice_before_funding /\
  Funding.advice s5_funding <> Some Funding.spec_advice_before.
Proof.
  split; [vm_compute; reflexivity |].
  vm_compute. discriminate.
Qed.

Lemma levels_qty_nonneg (levels : list (Q * Q)) :
  Forall (fun lv => (0 <= snd lv)%Q) levels -> (0 <= levels_qty levels)%Q.
Proof.
  induction levels as [| [p q] l IH]; intros H; [apply Qle_refl |].
  inversion H as [| ? ? Hq Hl]; subst. cbn [snd] in Hq.
  specialize (IH Hl). unfold levels_qty in *. cbn [fold_right snd]. Lqa.lra.
Qed.

Lemma Qmin_cases (a b : Q) :
  ((a <= b)%Q /\ (Qmin a b == a)%Q) \/ ((b < a)%Q /\ (Qmin a b == b)%Q).
Proof.
  destruct (Qlt_le_dec b a) as [H | H].
  - right. split; [exact H |]. apply Q.min_r. apply Qlt_le_weak. exact H.
  - left. split; [exact H |]. apply Q.min_l. exact H.
Qed.

(** The greedy walk fills [min(remaining, total offered)] when no level
    has a negative quantity. *)
Lemma walk_levels_filled (levels : list (Q * Q)) (rem tq f : Q) :
  (0 <= rem)%Q -> Forall (fun lv => (0 <= snd lv)%Q) levels ->
  (snd (Sim.walk_levels levels rem tq f) == f + Qmin rem (levels_qty levels))%Q.
Proof.
  revert rem tq f.
  induction levels as [| [p q] l IH]; intros rem tq f Hr H; cbn [Sim.walk_levels levels_qty fold_right snd fst].
  - cbn. destruct (Qmin_cases rem 0) as [[H1 H2] | [H1 H2]]; rewrite H2; Lqa.lra.
  - inversion H as [| ? ? Hq Hl]; subst. cbn [snd] in Hq.
    pose proof (levels_qty_nonneg l Hl) as Hs. fold (levels_qty l).
    destruct (Qle_bool rem 0) eqn:E.
    + apply Qle_bool_iff in E. cbn [snd].
      destruct (Qmin_cases rem (q + levels_qty l)) as [[H1 H2] | [H1 H2]];
        rewrite H2; Lqa.lra.
    + assert (Hpos : (0 < rem)%Q).
      { apply Qnot_le_lt. intros Hle. apply Qle_bool_iff in Hle. congruence. }
      destruct (Qmin_cases rem q) as [[H1 H2] | [H1 H2]].
      * rewrite IH by (try assumption; rewrite H2; Lqa.lra).
        rewrite H2.
        destruct (Qmin_cases (rem - rem) (levels_qty l)) as [[H3 H4] | [H3 H4]];
          rewrite H4;
        destruct (Qmin_cases rem (q + levels_qty l)) as [[H5 H6] | [H5 H6]];
          rewrite H6; Lqa.lra.
      * rewrite IH by (try assumption; rewrite H2; Lqa.lra).
        rewrite H2.
        destruct (Qmin_cases (rem - q) (levels_qty l)) as [[H3 H4] | [H3 H4]];
          rewrite H4;
        destruct (Qmin_cases rem (q + levels_qty l)) as [[H5 H6] | [H5 H6]];
          rewrite H6; Lqa.lra.
Qed.

Lemma py_qdiv_nz (a b : Q) : ~ (b == 0)%Q -> Sim.py_qdiv a b = Some (a / b)%Q.
Proof.
  intros H. unfold Sim.py_qdiv. destruct (Qeq_bool b 0) eqn:E; [| reflexivity].
  apply Qeq_bool_iff in E. contradiction.
Qed.

(** C9 (amended): for non-zero mids and a valid pattern the handler
    answers; on each leg (the bids when selling, the asks when buying) with
    [base = notional / mid] the greedy walk gives [(quote, filled)];
    [avg = quote / filled] when [filled > 0] and 0 otherwise;
    [filled = min(base, total offered)] when base and quantities are
    non-negative; the slippage fraction is [|avg - mid| / mid] when
    [avg > 0] and 0 otherwise; slippage USD and fee USD are the fraction
    and the taker fee times the notional; the total is the sum of the four.
    On S4 (sell 1.5 into [[100,1],[99,2]]) [avg = 299/3] and
    [slip_a_pct = 1/300]. *)
Theorem simulate_costs_spec :
  (forall (N : Q) (pattern : string) (ma mb : Q) (la lb : Sim.book) (ta tb : option Q),
   ~ (ma == 0)%Q -> ~ (mb == 0)%Q ->
   pattern = "enter_short_A_long_B"%string \/ pattern = "enter_long_A_short_B"%string ->
   let short_a := String.eqb pattern "enter_short_A_long_B" in
   let lv_a := if short_a then Sim.bids la else Sim.asks la in
   let lv_b := if short_a then Sim.asks lb else Sim.bids lb in
   let wa := Sim.walk_levels lv_a (N / ma) 0 0 in
   let wb := Sim.walk_levels lv_b (N / mb) 0 0 in
   exists r, Sim.api_simulate N pattern ma mb la lb ta tb = Sim.SimOk r /\
     Sim.filled_base_a r = snd wa /\ Sim.filled_base_b r = snd wb /\
     Sim.avg_a r = (if qlt 0 (snd wa) then fst wa / snd wa else 0)%Q /\
     Sim.avg_b r = (if qlt 0 (snd wb) then fst wb / snd wb else 0)%Q /\
     ((0 <= N / ma)%Q -> Forall (fun lv => (0 <= snd lv)%Q) lv_a ->
        (Sim.filled_base_a r == Qmin (N / ma) (levels_qty lv_a))%Q) /\
     ((0 <= N / mb)%Q -> Forall (fun lv => (0 <= snd lv)%Q) lv_b ->
        (Sim.filled_base_b r == Qmin (N / mb) (levels_qty lv_b))%Q) /\
     Sim.slip_a_pct r = (if qlt 0 (Sim.avg_a r) then Qabs (Sim.avg_a r - ma) / ma else 0)%Q /\
     Sim.slip_b_pct r = (if qlt 0 (Sim.avg_b r) then Qabs (Sim.avg_b r - mb) / mb else 0)%Q /\
     Sim.slip_a_usd r = (Sim.slip_a_pct r * N)%Q /\
     Sim.slip_b_usd r = (Sim.slip_b_pct r * N)%Q /\
     Sim.fee_a_usd r = (Sim.taker_or_zero ta * N)%Q /\
     Sim.fee_b_usd r = (Sim.taker_or_zero tb * N)%Q /\
     Sim.total_cost_usd r =
       (Sim.slip_a_usd r + Sim.slip_b_usd r + Sim.fee_a_usd r + Sim.fee_b_usd r)%Q) /\
  match Sim.api_simulate 150 "enter_short_A_long_B" 100 100 s4_book_a s4_book_b None None with
  | Sim.SimOk r => (Sim.filled_base_a r == 3 # 2)%Q /\ (Sim.avg_a r == 299 # 3)%Q /\
                   (Sim.slip_a_pct r == 1 # 300)%Q
  | Sim.SimError _ => False
  end.
Proof.
  split; [| vm_compute; repeat split].
  intros N pattern ma mb la lb ta tb Ha Hb Hp short_a lv_a lv_b wa wb.
  unfold Sim.api_simulate. rewrite (py_qdiv_nz N ma Ha), (py_qdiv_nz N mb Hb).
  assert (Hs : (if String.eqb pattern "enter_short_A_long_B" then Some (Sim.sell, Sim.buy)
                else if String.eqb pattern "enter_long_A_short_B" then Some (Sim.buy, Sim.sell)
                else None)
               = Some (if short_a then (Sim.sell, Sim.buy) else (Sim.buy, Sim.sell))).
  { unfold short_a. destruct Hp as [-> | ->]; reflexivity. }
  rewrite Hs.
  assert (Hla : match (if short_a then Sim.sell else Sim.buy) with
                | Sim.buy => Sim.asks la | Sim.sell => Sim.bids la end = lv_a)
    by (unfold lv_a; destruct short_a; reflexivity).
  assert (Hlb : match (if short_a then Sim.buy else Sim.sell) with
                | Sim.buy => Sim.asks lb | Sim.sell => Sim.bids lb end = lv_b)
    by (unfold lv_b; destruct short_a; reflexivity).
  replace (if short_a then (Sim.sell, Sim.buy) else (Sim.buy, Sim.sell))
    with ((if short_a then Sim.sell else Sim.buy), (if short_a then Sim.buy else Sim.sell))
    by (destruct short_a; reflexivity).
  cbv iota beta. rewrite Hla, Hlb.
  unfold Sim.avg_exec_price. fold wa wb.
  destruct wa as [tqa fa] eqn:Ewa. destruct wb as [tqb fb] eqn:Ewb.
  eexists. split; [reflexivity |]. cbn [Sim.filled_base_a Sim.filled_base_b Sim.avg_a
    Sim.avg_b Sim.slip_a_pct Sim.slip_b_pct Sim.slip_a_usd Sim.slip_b_usd Sim.fee_a_usd
    Sim.fee_b_usd Sim.total_cost_usd fst snd].
  split; [reflexivity |]. split; [reflexivity |].
  split; [reflexivity |]. split; [reflexivity |].
  split.
  { intros H0 Hq. pose proof (walk_levels_filled lv_a (N / ma) 0 0 H0 Hq) as Hf.
    fold wa in Hf. rewrite Ewa in Hf. cbn [snd] in Hf. rewrite Hf. ring. }
  split.
  { intros H0 Hq. pose proof (walk_levels_filled lv_b (N / mb) 0 0 H0 Hq) as Hf.
    fold wb in Hf. rewrite Ewb in Hf. cbn [snd] in Hf. rewrite Hf. ring. }
  repeat split.
Qed.

(** C9 counterexample: selling into an empty book fills nothing; the code
    reports [avg_a = 0] and [slip_a_pct = 0], while the specification's
    [|avg - mid| / mid] at mid 100 would be 1 (and [quote / filled] is a
    division by zero). *)
Lemma simulate_empty_book_counterexample :
  match Sim.api_simulate 150 "enter_short_A_long_B" 100 100
          {| Sim.bids := []; Sim.asks := [] |} s4_book_b None None with
  | Sim.SimOk r => Sim.filled_base_a r = 0%Q /\ Sim.avg_a r = 0%Q /\
                   Sim.slip_a_pct r = 0%Q /\
                   ~ (Sim.slip_a_pct r == Qabs (Sim.avg_a r - 100) / 100)%Q
  | Sim.SimError _ => False
  end.
Proof.
  vm_compute. split; [reflexivity |]. split; [reflexivity |]. split; [reflexivity |].
  discriminate.
Qed.

Lemma broadcast_fold_sent (alive : nat -> bool) (p : string)
    (m : list (string * Json.json)) (conns : list nat) (st : Ingest.server) :
  let st' := fold_left (fun st' ws =>
      if alive ws
      then {| Ingest.db := Ingest.db st'; Ingest.active := Ingest.active st';
              Ingest.sent := Ingest.sent st' ++ [(ws, m)] |}
      else {| Ingest.db := Ingest.db st';
              Ingest.active := Ingest.disconnect p ws (Ingest.active st');
              Ingest.sent := Ingest.sent st' |}) conns st in
  Ingest.db st' = Ingest.db st /\
  Ingest.sent st' = Ingest.sent st ++ map (fun ws => (ws, m)) (filter alive conns).
Proof.
  revert st. induction conns as [| w conns IH]; intros st; cbn.
  - rewrite app_nil_r. split; reflexivity.
  - destruct (alive w).
    + destruct (IH {| Ingest.db := Ingest.db st; Ingest.active := Ingest.active st;
                      Ingest.sent := Ingest.sent st ++ [(w, m)] |}) as [H1 H2].
      rewrite H1, H2. cbn. rewrite <- app_assoc. split; reflexivity.
    + destruct (IH {| Ingest.db := Ingest.db st;
                      Ingest.active := Ingest.disconnect p w (Ingest.active st);
                      Ingest.sent := Ingest.sent st |}) as [H1 H2].
      rewrite H1, H2. split; reflexivity.
Qed.

Lemma broadcast_sent (alive : nat -> bool) (pair : Json.json)
    (m : list (string * Json.json)) (st : Ingest.server) :
  Ingest.db (Ingest.broadcast alive pair m st) = Ingest.db st /\
  Ingest.sent (Ingest.broadcast alive pair m st)
  = Ingest.sent st ++ map (fun ws => (ws, m)) (filter alive (pair_sockets pair (Ingest.active st))).
Proof.
  destruct pair; cbn [Ingest.broadcast pair_sockets]; try (rewrite app_nil_r; split; reflexivity).
  apply broadcast_fold_sent.
Qed.

Lemma convert_pair (payload : list (string * Json.json)) (r : Ingest.stored) :
  Ingest.convert payload = Some r -> Json.lookup "pair" payload = Some (Ingest.s_pair r).
Proof.
  unfold Ingest.convert. destruct (Json.lookup "pair" payload) as [pv |]; [| discriminate].
  intros H.
  destruct (Json.lookup "ts_ms" payload ≫= Json.py_int); [| discriminate]. cbn in H.
  destruct (Json.lookup "price_a" payload ≫= Json.py_float); [| discriminate]. cbn in H.
  destruct (Json.lookup "price_b" payload ≫= Json.py_float); [| discriminate]. cbn in H.
  destruct (Json.lookup "spread" payload ≫= Json.py_float); [| discriminate]. cbn in H.
  destruct (Json.lookup "z" payload ≫= Json.py_float); [| discriminate]. cbn in H.
  destruct (Json.lookup "mean" payload ≫= Json.py_float); [| discriminate]. cbn in H.
  destruct (Json.lookup "std" payload ≫= Json.py_float); [| discriminate]. cbn in H.
  injection H as <-. reflexivity.
Qed.

Lemma forallb_false_exists {A} (f : A -> bool) (l : list A) :
  forallb f l = false <-> Exists (fun x => f x = false) l.
Proof.
  induction l as [| a l IH]; cbn.
  - split; [discriminate | intros H; inversion H].
  - rewrite andb_false_iff, IH. split.
    + intros [H | H]; [left; exact H | right; exact H].
    + intros H; inversion H; subst; [left | right]; assumption.
Qed.

(** C7 (amended): [POST /api/ingest/spread] answers 400 exactly when one
    of the eight required keys is absent.  When all eight are present and
    the required fields convert ([int]/[float]) and the row can be stored,
    it appends the row (whose [pair] is the payload's) to the table, sends
    the full payload to every live socket registered under the pair string
    (none when no socket is registered, or the pair is not a string) and
    answers [{"status": "ok"}]; when a conversion or the insert raises, it
    answers 500 and changes nothing. *)
Theorem ingest_spread_spec (alive : nat -> bool) (payload : list (string * Json.json))
    (st : Ingest.server) :
  let res := Ingest.ingest_spread alive payload st in
  (fst res = Ingest.http_error 400 <->
   Exists (fun k => Ingest.has_key k payload = false) Ingest.required) /\
  (forallb (fun k => Ingest.has_key k payload) Ingest.required = true ->
   match Ingest.convert payload with
   | Some r =>
     if Ingest.insert_ok r then
       fst res = Ingest.status_ok /\
       Json.lookup "pair" payload = Some (Ingest.s_pair r) /\
       Ingest.db (snd res) = Ingest.db st ++ [r] /\
       Ingest.sent (snd res) = Ingest.sent st ++
         map (fun ws => (ws, payload)) (filter alive (pair_sockets (Ingest.s_pair r) (Ingest.active st)))
     else res = (Ingest.http_error 500, st)
   | None => res = (Ingest.http_error 500, st)
   end).
Proof.
  intros res. split.
  - unfold res, Ingest.ingest_spread. rewrite <- forallb_false_exists.
    destruct (forallb (fun k => Ingest.has_key k payload) Ingest.required); cbn [negb].
    + split; [| discriminate].
      destruct (Ingest.convert payload) as [r |]; [| cbn; discriminate].
      destruct (Ingest.insert_ok r); cbn; discriminate.
    + split; reflexivity.
  - intros Hall. unfold res, Ingest.ingest_spread. rewrite Hall. cbn [negb].
    destruct (Ingest.convert payload) as [r |] eqn:Ec; [| reflexivity].
    destruct (Ingest.insert_ok r); [| reflexivity].
    cbn [fst snd].
    destruct (broadcast_sent alive (Ingest.s_pair r) payload
      {| Ingest.db := Ingest.db st ++ [r]; Ingest.active := Ingest.active st;
         Ingest.sent := Ingest.sent st |}) as [H1 H2].
    rewrite H1, H2. cbn [Ingest.db Ingest.sent Ingest.active].
    split; [reflexivity |]. split; [apply convert_pair; exact Ec |].
    split; reflexivity.
Qed.

(** C7 counterexample: all eight keys are present, but [float(None)]
    raises; the handler answers 500 and neither persists nor broadcasts. *)
Lemma ingest_null_price_counterexample :
  forallb (fun k => Ingest.has_key k null_price_payload) Ingest.required = true /\
  Ingest.ingest_spread (fun _ => true) null_price_payload empty_server
  = (Ingest.http_error 500, empty_server).
Proof. split; vm_compute; reflexivity. Qed.

(** [int()] and [float()] of strings, as in Python. *)
Lemma parse_string_examples :
  Json.parse_float "1e3" = Some (PyFloat.FFin 1000) /\
  Json.parse_float " -Infinity " = Some PyFloat.FNInf /\
  Json.parse_float "nAn" = Some PyFloat.FNaN /\
  Json.parse_float "1_0.2_5" = Some (PyFloat.FFin (1025 # 100)) /\
  Json.parse_float "1e400" = Some PyFloat.FInf /\
  Json.parse_float "1__0" = None /\
  Json.parse_float "1e" = None /\
  Json.parse_int "1_000" = Some 1000%Z /\
  Json.parse_int " -7 " = Some (-7)%Z /\
  Json.parse_int "1e3" = None /\
  Json.parse_int "_1" = None.
Proof. vm_compute. repeat split. Qed.

(** A payload whose numbers are such strings is stored and answered
    [{"status": "ok"}]. *)
Lemma ingest_string_numbers_ok :
  fst (Ingest.ingest_spread (fun _ => true) string_number_payload empty_server)
  = Ingest.status_ok /\
  map Ingest.s_price_a (Ingest.db (snd (Ingest.ingest_spread (fun _ => true)
    string_number_payload empty_server))) = [PyFloat.FFin 1000].
Proof. split; vm_compute; reflexivity. Qed.

Lemma lt_fin_below (x : PyFloat.pyfloat) (c : Q) :
  PyFloat.lt x (PyFloat.FFin c) = true -> fbelow x c.
Proof.
  destruct x as [q | | |]; cbn; try discriminate; [| trivial].
  intros H. apply qlt_true in H. apply Qlt_le_weak. exact H.
Qed.

Lemma refill_le_cap (b : RateLimit.bucket) (now : Q) :
  fbelow (RateLimit.tokens (RateLimit.refill b now)) (inject_Z (RateLimit.capacity b)).
Proof.
  cbn [RateLimit.refill RateLimit.tokens]. unfold PyFloat.min_int.
  destruct (PyFloat.lt _ _) eqn:E.
  - exact (lt_fin_below _ _ E).
  - cbn. apply Qle_refl.
Qed.

Lemma wait_loop_spec (later : list Q) (b : RateLimit.bucket) (need : Q) :
  fbelow (RateLimit.tokens b) (inject_Z (RateLimit.capacity b)) ->
  let r := RateLimit.wait_loop later b (PyFloat.FFin need) in
  RateLimit.capacity (RateLimit.result_bucket r) = RateLimit.capacity b /\
  RateLimit.refill_rate (RateLimit.result_bucket r) = RateLimit.refill_rate b /\
  match r with
  | RateLimit.consumed b' =>
      exists avail, (need <= avail)%Q /\ (avail <= inject_Z (RateLimit.capacity b))%Q /\
                    RateLimit.tokens b' = PyFloat.FFin (avail - need)
  | RateLimit.waiting b' => PyFloat.lt (RateLimit.tokens b') (PyFloat.FFin need) = true
  end.
Proof.
  assert (Hdone : forall b, fbelow (RateLimit.tokens b) (inject_Z (RateLimit.capacity b)) ->
            PyFloat.lt (RateLimit.tokens b) (PyFloat.FFin need) = false ->
            exists avail, (need <= avail)%Q /\ (avail <= inject_Z (RateLimit.capacity b))%Q /\
              PyFloat.sub (RateLimit.tokens b) (PyFloat.FFin need) = PyFloat.FFin (avail - need)).
  { intros b0 Hb E. destruct (RateLimit.tokens b0) as [q | | |]; cbn in Hb, E |- *;
      try discriminate; try contradiction.
    exists q. split; [apply qlt_false; exact E | split; [exact Hb | reflexivity]]. }
  revert b. induction later as [| now2 rest IH]; intros b Hb r; unfold r; cbn [RateLimit.wait_loop].
  - destruct (PyFloat.lt (RateLimit.tokens b) (PyFloat.FFin need)) eqn:E; cbn.
    + split; [reflexivity | split; [reflexivity | exact E]].
    + split; [reflexivity | split; [reflexivity |]]. exact (Hdone b Hb E).
  - destruct (PyFloat.lt (RateLimit.tokens b) (PyFloat.FFin need)) eqn:E.
    + destruct (IH (RateLimit.refill b now2) (refill_le_cap b now2)) as [H1 [H2 H3]].
      split; [exact H1 | split; [exact H2 | exact H3]].
    + cbn. split; [reflexivity | split; [reflexivity |]]. exact (Hdone b Hb E).
Qed.

Lemma consume_spec (now : Q) (later : list Q) (b : RateLimit.bucket) (w : Z) :
  let r := RateLimit.consume now later b w in
  RateLimit.capacity (RateLimit.result_bucket r) = RateLimit.capacity b /\
  RateLimit.refill_rate (RateLimit.result_bucket r) = RateLimit.refill_rate b /\
  match r with
  | RateLimit.consumed b' =>
      exists avail, (inject_Z w <= avail)%Q /\ (avail <= inject_Z (RateLimit.capacity b))%Q /\
                    RateLimit.tokens b' = PyFloat.FFin (avail - inject_Z w)
  | RateLimit.waiting b' => PyFloat.lt (RateLimit.tokens b') (PyFloat.FFin (inject_Z w)) = true
  end.
Proof.
  unfold RateLimit.consume.
  exact (wait_loop_spec later (RateLimit.refill b now) (inject_Z w) (refill_le_cap b now)).
Qed.

(** C8: [allow] consumes the bucket stored under the key
    ["exchange:endpoint"] when there is one, else the one under
    ["exchange:global"], else a new [TokenBucket(1000, 1000)] it stores
    under ["exchange:global"]; it never rejects: the consumed bucket keeps
    its capacity and rate, and either the call completes having deducted
    [weight] from an available count between [weight] and the capacity,
    or it is still waiting with fewer than [weight] tokens. *)
Theorem allow_spec (m : gmap string RateLimit.bucket) (ex ep : string) (w : Z)
    (t_new now : Q) (later : list Q) :
  match RateLimit.allow m ex ep w t_new now later with
  | (k, r, m') =>
    exists b,
      ((m !! RateLimit.key ex ep = Some b /\ k = RateLimit.key ex ep) \/
       (m !! RateLimit.key ex ep = None /\ m !! RateLimit.key ex "global" = Some b /\
        k = RateLimit.key ex "global") \/
       (m !! RateLimit.key ex ep = None /\ m !! RateLimit.key ex "global" = None /\
        b = RateLimit.new_bucket 1000 (PyFloat.FFin 1000) t_new /\ k = RateLimit.key ex "global")) /\
      r = RateLimit.consume now later b w /\
      m' = <[k := RateLimit.result_bucket r]> m /\
      RateLimit.capacity (RateLimit.result_bucket r) = RateLimit.capacity b /\
      RateLimit.refill_rate (RateLimit.result_bucket r) = RateLimit.refill_rate b /\
      match r with
      | RateLimit.consumed b' =>
          exists avail, (inject_Z w <= avail)%Q /\
                        (avail <= inject_Z (RateLimit.capacity b))%Q /\
                        RateLimit.tokens b' = PyFloat.FFin (avail - inject_Z w)
      | RateLimit.waiting b' => PyFloat.lt (RateLimit.tokens b') (PyFloat.FFin (inject_Z w)) = true
      end
  end.
Proof.
  unfold RateLimit.allow.
  destruct (m !! RateLimit.key ex ep) as [b |] eqn:E1.
  { exists b. destruct (consume_spec now later b w) as [H1 [H2 H3]].
    split; [left; split; reflexivity |].
    split; [reflexivity | split; [reflexivity | split; [exact H1 | split; [exact H2 | exact H3]]]]. }
  destruct (m !! RateLimit.key ex "global") as [b |] eqn:E2.
  { exists b. destruct (consume_spec now later b w) as [H1 [H2 H3]].
    split; [right; left; split; [reflexivity | split; reflexivity] |].
    split; [reflexivity | split; [reflexivity | split; [exact H1 | split; [exact H2 | exact H3]]]]. }
  exists (RateLimit.new_bucket 1000 (PyFloat.FFin 1000) t_new).
  destruct (consume_spec now later (RateLimit.new_bucket 1000 (PyFloat.FFin 1000) t_new) w) as [H1 [H2 H3]].
  split; [right; right; split; [reflexivity | split; [reflexivity | split; reflexivity]] |].
  split; [reflexivity | split; [reflexivity | split; [exact H1 | split; [exact H2 | exact H3]]]].
Qed.

Lemma conf_bucket_fresh (conf : Json.json) (now : Q) (b : RateLimit.bucket) :
  RateLimit.conf_bucket conf now = Some b ->
  RateLimit.tokens b = PyFloat.FFin (inject_Z (RateLimit.capacity b)) /\ RateLimit.last b = now.
Proof.
  unfold RateLimit.conf_bucket. destruct conf; try discriminate.
  destruct (Json.py_int _) as [cap |]; [| discriminate]. cbn.
  destruct (Json.py_float _); [| discriminate]. cbn.
  destruct (PyFloat.int_fits cap); [| discriminate].
  intros H. injection H as <-. split; reflexivity.
Qed.

Lemma update_eps_frame (exch : string) (eps : list (string * Json.json)) (now : Q)
    (m : gmap string RateLimit.bucket) (k : string) :
  (forall ep, In ep (map fst eps) -> RateLimit.key exch ep <> k) ->
  fst (RateLimit.update_eps exch eps now m) !! k = m !! k.
Proof.
  revert m. induction eps as [| [ep conf] rest IH]; intros m Hk; cbn [RateLimit.update_eps]; [reflexivity |].
  destruct (RateLimit.conf_bucket conf now) as [b |]; [| reflexivity].
  rewrite IH.
  - apply lookup_insert_ne. apply Hk. left. reflexivity.
  - intros ep' Hin. apply Hk. right. exact Hin.
Qed.

Lemma update_exchs_frame (cfg : list (string * Json.json)) (now : Q)
    (m : gmap string RateLimit.bucket) (k : string) :
  (forall ex ep, In (ex, ep) (RateLimit.config_keys (Json.JObj cfg)) -> RateLimit.key ex ep <> k) ->
  fst (RateLimit.update_exchs cfg now m) !! k = m !! k.
Proof.
  revert m. induction cfg as [| [exch c] rest IH]; intros m Hk; cbn [RateLimit.update_exchs]; [reflexivity |].
  destruct c as [| | | | | | eps]; try reflexivity.
  assert (Hep : forall ep, In ep (map fst eps) -> RateLimit.key exch ep <> k).
  { intros ep Hin. apply Hk. cbn. apply in_or_app. left.
    apply in_map_iff in Hin. destruct Hin as [[ep' conf] [Heq Hin]]. cbn in Heq. subst ep'.
    apply in_map_iff. exists (ep, conf). split; [reflexivity | exact Hin]. }
  destruct (RateLimit.update_eps exch eps now m) as [m1 ok] eqn:E.
  pose proof (update_eps_frame exch eps now m k Hep) as H1. rewrite E in H1. cbn in H1.
  destruct ok; cbn [fst]; [| exact H1].
  rewrite IH; [exact H1 |].
  intros ex ep Hin. apply Hk. cbn. apply in_or_app. right. exact Hin.
Qed.

Lemma update_eps_written (exch : string) (eps : list (string * Json.json)) (now : Q)
    (m m' : gmap string RateLimit.bucket) (k : string) :
  RateLimit.update_eps exch eps now m = (m', true) ->
  (exists ep conf b, In (ep, conf) eps /\ RateLimit.key exch ep = k /\
     RateLimit.conf_bucket conf now = Some b /\ m' !! k = Some b) \/
  (m' !! k = m !! k /\ forall ep, In ep (map fst eps) -> RateLimit.key exch ep <> k).
Proof.
  revert m. induction eps as [| [ep0 conf0] rest IH]; intros m H; cbn [RateLimit.update_eps] in H.
  - injection H as <-. right. split; [reflexivity | intros ep []].
  - destruct (RateLimit.conf_bucket conf0 now) as [b0 |] eqn:Eb; [| discriminate].
    destruct (IH _ H) as [[ep [conf [b [Hin [Hk [Hc Hl]]]]]] | [Hl Hne]].
    + left. exists ep, conf, b. split; [right; exact Hin | split; [exact Hk | split; assumption]].
    + destruct (String.string_dec (RateLimit.key exch ep0) k) as [Heq | Hneq].
      * left. exists ep0, conf0, b0. split; [left; reflexivity | split; [exact Heq | split; [exact Eb |]]].
        rewrite Hl, Heq. apply lookup_insert_eq.
      * right. split.
        -- rewrite Hl. apply lookup_insert_ne. exact Hneq.
        -- intros ep [<- | Hin]; [exact Hneq | exact (Hne ep Hin)].
Qed.

Lemma update_exchs_written (cfg : list (string * Json.json)) (now : Q)
    (m m' : gmap string RateLimit.bucket) (k : string) :
  RateLimit.update_exchs cfg now m = (m', true) ->
  (exists ex ep conf b, In (ex, ep, conf) (config_entries (Json.JObj cfg)) /\
     RateLimit.key ex ep = k /\ RateLimit.conf_bucket conf now = Some b /\ m' !! k = Some b) \/
  (m' !! k = m !! k /\
   forall ex ep, In (ex, ep) (RateLimit.config_keys (Json.JObj cfg)) -> RateLimit.key ex ep <> k).
Proof.
  revert m. induction cfg as [| [exch c] rest IH]; intros m H; cbn [RateLimit.update_exchs] in H.
  - injection H as <-. right. split; [reflexivity | intros ex ep []].
  - destruct c as [| | | | | | eps]; try discriminate.
    destruct (RateLimit.update_eps exch eps now m) as [m1 ok1] eqn:E.
    destruct ok1; [| discriminate].
    destruct (IH m1 H) as [[ex [ep [conf [b [Hin [Hk [Hc Hl]]]]]]] | [Hl Hne]].
    + left. exists ex, ep, conf, b. split; [| split; [exact Hk | split; assumption]].
      cbn. apply in_or_app. right. exact Hin.
    + destruct (update_eps_written exch eps now m m1 k E)
        as [[ep [conf [b [Hin [Hk [Hc Hl1]]]]]] | [Hl1 Hne1]].
      * left. exists exch, ep, conf, b.
        split; [| split; [exact Hk | split; [exact Hc | rewrite Hl; exact Hl1]]].
        cbn. apply in_or_app. left. apply in_map_iff. exists (ep, conf). split; [reflexivity | exact Hin].
      * right. split; [rewrite Hl; exact Hl1 |].
        intros ex ep Hin. cbn in Hin. apply in_app_or in Hin. destruct Hin as [Hin | Hin].
        -- apply in_map_iff in Hin. destruct Hin as [[ep' conf] [Heq Hin]].
           injection Heq as <- <-. apply Hne1. apply in_map_iff.
           exists (ep', conf). split; [reflexivity | exact Hin].
        -- exact (Hne ex ep Hin).
Qed.

Lemma installed_app (p1 p2 : list (string * string * Json.json)) (b1 b2 : list RateLimit.bucket)
    (m : gmap string RateLimit.bucket) :
  length p1 = length b1 ->
  installed (p1 ++ p2) (b1 ++ b2) m = installed p2 b2 (installed p1 b1 m).
Proof.
  revert b1 m. induction p1 as [| e p1 IH]; intros [| b b1] m Hl; cbn in Hl |- *; try discriminate.
  - reflexivity.
  - apply IH. congruence.
Qed.

Lemma update_eps_installed (exch : string) (eps : list (string * Json.json)) (now : Q)
    (m m' : gmap string RateLimit.bucket) (ok : bool) :
  RateLimit.update_eps exch eps now m = (m', ok) ->
  exists e1 bs,
    Forall2 (fun e b => RateLimit.conf_bucket (snd e) now = Some b)
      (map (fun '(ep', conf') => (exch, ep', conf')) e1) bs /\
    m' = installed (map (fun '(ep', conf') => (exch, ep', conf')) e1) bs m /\
    if ok then e1 = eps
    else exists ep conf e2, eps = e1 ++ (ep, conf) :: e2 /\ RateLimit.conf_bucket conf now = None.
Proof.
  revert m. induction eps as [| [ep conf] rest IH]; intros m H; cbn [RateLimit.update_eps] in H.
  - injection H as <- <-. exists [], []. split; [constructor | split; reflexivity].
  - destruct (RateLimit.conf_bucket conf now) as [b |] eqn:Eb.
    + destruct (IH _ H) as [e1 [bs [HF [Hm Hok]]]].
      exists ((ep, conf) :: e1), (b :: bs). split; [constructor; [exact Eb | exact HF] |].
      split; [exact Hm |].
      destruct ok.
      * rewrite Hok. reflexivity.
      * destruct Hok as [ep' [conf' [e2 [He Hc]]]].
        exists ep', conf', e2. rewrite He. split; [reflexivity | exact Hc].
    + injection H as <- <-. exists [], []. split; [constructor | split; [reflexivity |]].
      exists ep, conf, rest. split; [reflexivity | exact Eb].
Qed.

Lemma update_exchs_raise (cfg : list (string * Json.json)) (now : Q)
    (m m' : gmap string RateLimit.bucket) :
  RateLimit.update_exchs cfg now m = (m', false) ->
  exists pre bs, Forall2 (fun e b => RateLimit.conf_bucket (snd e) now = Some b) pre bs /\
    m' = installed pre bs m /\ raise_point (Json.JObj cfg) pre now.
Proof.
  revert m. induction cfg as [| [exch c] rest IH]; intros m H; cbn [RateLimit.update_exchs] in H;
    [discriminate |].
  destruct c as [| | | | | | eps].
  1-6: injection H as <-; exists [], []; split; [apply Forall2_nil |]; split; [reflexivity |];
       exists [], exch; eexists; exists rest; split; reflexivity.
  destruct (RateLimit.update_eps exch eps now m) as [m1 ok1] eqn:E.
  destruct (update_eps_installed exch eps now m m1 ok1 E) as [e1 [bs1 [HF1 [Hm1 Hok1]]]].
  destruct ok1.
  - subst e1. destruct (IH m1 H) as [pre [bs [HF [Hm Hr]]]].
    exists (map (fun '(ep', conf') => (exch, ep', conf')) eps ++ pre), (bs1 ++ bs).
    split; [apply Forall2_app; assumption |].
    split.
    + rewrite installed_app by (eapply Forall2_length; exact HF1). rewrite <- Hm1. exact Hm.
    + destruct Hr as [c1 [exch' [c [c2 [Hcfg Hc]]]]].
      exists ((exch, Json.JObj eps) :: c1), exch', c, c2. split; [rewrite Hcfg; reflexivity |].
      destruct c as [| | | | | | eps'];
        try (rewrite Hc; reflexivity).
      destruct Hc as [e1' [ep [conf [e2 [He [Hn Hp]]]]]].
      exists e1', ep, conf, e2. split; [exact He | split; [exact Hn |]].
      rewrite Hp. cbn [config_entries flat_map]. rewrite app_assoc. reflexivity.
  - injection H as <-. exists (map (fun '(ep', conf') => (exch, ep', conf')) e1), bs1.
    split; [exact HF1 | split; [exact Hm1 |]].
    destruct Hok1 as [ep [conf [e2 [He Hn]]]].
    exists [], exch, (Json.JObj eps), rest. split; [reflexivity |].
    exists e1, ep, conf, e2. split; [exact He | split; [exact Hn | reflexivity]].
Qed.

(** C10 (amended): [RateLimiter.update(config)] leaves the bucket of every
    key no entry of [config] names unchanged, also when it raises
    part-way; when it returns normally, every key an entry of [config]
    names holds a bucket freshly built from the [conf] of an entry with
    that key, its tokens at its full capacity and its clock
    at the call's time; when it raises, the entries before the raising
    point (an entry whose conversions or [float(capacity)] raise, or a
    value that is not a dict) have had their buckets installed, in order,
    and nothing else has changed. *)
Theorem update_spec (m : gmap string RateLimit.bucket) (config : Json.json) (now : Q) :
  let '(m', ok) := RateLimit.update m config now in
  (forall k, (forall ex ep, In (ex, ep) (RateLimit.config_keys config) -> RateLimit.key ex ep <> k) ->
     m' !! k = m !! k) /\
  (ok = true -> forall ex ep, In (ex, ep) (RateLimit.config_keys config) ->
     exists b, m' !! RateLimit.key ex ep = Some b /\
       RateLimit.tokens b = PyFloat.FFin (inject_Z (RateLimit.capacity b)) /\ RateLimit.last b = now /\
       exists ex' ep' conf, In (ex', ep', conf) (config_entries config) /\
         RateLimit.key ex' ep' = RateLimit.key ex ep /\ RateLimit.conf_bucket conf now = Some b) /\
  (ok = false -> exists pre bs,
     Forall2 (fun e b => RateLimit.conf_bucket (snd e) now = Some b) pre bs /\
     m' = installed pre bs m /\ raise_point config pre now).
Proof.
  destruct config as [| | | | | | cfg];
    try (cbn; split; [intros; reflexivity | split; [discriminate |]];
         intros _; exists [], []; split; [constructor | split; reflexivity]).
  unfold RateLimit.update.
  destruct (RateLimit.update_exchs cfg now m) as [m' ok] eqn:E.
  split; [| split].
  - intros k Hk. pose proof (update_exchs_frame cfg now m k Hk) as H. rewrite E in H. exact H.
  - intros -> ex ep Hin.
    destruct (update_exchs_written cfg now m m' (RateLimit.key ex ep) E)
      as [[ex' [ep' [conf [b [Hin' [Hk [Hc Hl]]]]]]] | [_ Hne]].
    + exists b. destruct (conf_bucket_fresh conf now b Hc) as [Ht Hlast].
      split; [exact Hl | split; [exact Ht | split; [exact Hlast |]]].
      exists ex', ep', conf. split; [exact Hin' | split; [exact Hk | exact Hc]].
    + exfalso. exact (Hne ex ep Hin eq_refl).
  - intros ->. exact (update_exchs_raise cfg now m m' E).
Qed.

(** C10 counterexample: [int(None)] raises on ["aster:depth"] after
    ["aster:global"] was replaced; ["aster:depth"], a key of [config], gets
    no bucket. *)
Lemma update_partial_counterexample :
  In ("aster", "depth")%string (RateLimit.config_keys null_capacity_config) /\
  snd (RateLimit.update ∅ null_capacity_config 0) = false /\
  fst (RateLimit.update ∅ null_capacity_config 0) !! "aster:global"%string <> None /\
  fst (RateLimit.update ∅ null_capacity_config 0) !! "aster:depth"%string = None.
Proof.
  split; [cbn; right; left; reflexivity |].
  split; [vm_compute; reflexivity |].
  split; [vm_compute; discriminate | vm_compute; reflexivity].
Qed.

(** * Further properties of the code *)

Lemma tl_skipn {A} (k : nat) (l : list A) : tl (skipn k l) = skipn (S k) l.
Proof.
  revert l. induction k as [| k IH]; intros [| a l]; cbn; try reflexivity.
  apply IH.
Qed.

(** X2: after [RollingZScore(W)] has been fed the values [xs], its window
    holds exactly the last [min(W, |xs|)] of them, oldest first. *)
Theorem rolling_window_last (W : nat) (s : ZScore.rolling) (xs : list R) :
  ZScore.make W = Some s ->
  ZScore.buf (zscore_feed s xs) = skipn (length xs - W) xs.
Proof.
  intros Hm.
  assert (HW : (1 < W)%nat).
  { unfold ZScore.make in Hm. destruct (Nat.leb W 1) eqn:E; [discriminate |].
    apply Nat.leb_gt in E. exact E. }
  assert (H : ZScore.window (zscore_feed s xs) = W /\
              ZScore.buf (zscore_feed s xs) = skipn (length xs - W) xs).
  { induction xs as [| x xs IH] using rev_ind.
    - unfold ZScore.make in Hm. destruct (Nat.leb W 1); [discriminate |].
      injection Hm as <-. split; reflexivity.
    - destruct IH as [Hw Hb]. unfold zscore_feed in *. rewrite fold_left_app.
      cbn [fold_left]. set (t := fold_left _ xs s) in *.
      unfold ZScore.update. cbv zeta. cbn [snd ZScore.window ZScore.buf].
      split; [exact Hw |]. rewrite Hw, Hb.
      rewrite length_app. cbn [length].
      assert (Hlen : length (skipn (length xs - W) xs) = (length xs - (length xs - W))%nat)
        by apply length_skipn.
      rewrite deque_append_fifo by lia.
      destruct (Nat.ltb (length (skipn (length xs - W) xs)) W) eqn:E.
      + apply Nat.ltb_lt in E.
        replace (length xs - W)%nat with 0%nat by lia.
        replace (length xs + 1 - W)%nat with 0%nat by lia. reflexivity.
      + apply Nat.ltb_ge in E. rewrite tl_skipn, skipn_app.
        replace (length xs + 1 - W)%nat with (S (length xs - W)) by lia.
        replace (S (length xs - W) - length xs)%nat with 0%nat by lia.
        reflexivity. }
  exact (proj2 H).
Qed.

Lemma rolling_window_last_witness :
  ZScore.make 3 = Some {| ZScore.window := 3; ZScore.buf := [] |} /\
  ZScore.buf (zscore_feed {| ZScore.window := 3; ZScore.buf := [] |} [1; 2; 3; 4; 5]%R)
  = skipn (length [1; 2; 3; 4; 5]%R - 3) [1; 2; 3; 4; 5]%R.
Proof.
  split; [reflexivity |].
  apply rolling_window_last. reflexivity.
Defined.

Lemma edges_to_bins_fst (l : list Q) : map fst (Bins.edges_to_bins l) = l.
Proof.
  induction l as [| a l IH]; [reflexivity |].
  destruct l as [| b l]; [reflexivity |].
  change (Bins.edges_to_bins (a :: b :: l)) with ((a, Some b) :: Bins.edges_to_bins (b :: l)).
  cbn [map fst]. rewrite IH. reflexivity.
Qed.

Lemma edges_to_bins_snd (a : Q) (l : list Q) :
  map snd (Bins.edges_to_bins (a :: l)) = map Some l ++ [None].
Proof.
  revert a. induction l as [| b l IH]; intros a; [reflexivity |].
  change (Bins.edges_to_bins (a :: b :: l)) with ((a, Some b) :: Bins.edges_to_bins (b :: l)).
  cbn [map snd]. rewrite IH. reflexivity.
Qed.

Lemma sort_q_nil (l : list Q) : Bins.sort_q l = [] -> l = [].
Proof.
  intros H. apply Permutation_nil. rewrite <- H. apply sort_q_perm.
Qed.

(** X3: [_parse_edges] on the parsed edges: the bins' lower edges are the
    edges sorted ascending (a permutation of them, one bin per edge), each
    bin's upper edge is the next lower edge, and the last bin is open
    ([hi = None]); no edges give no bins. *)
Theorem parse_edges_shape (parts : list Q) :
  let bins := Bins.parse_edges parts in
  map fst bins = Bins.sort_q parts /\
  Sorted Qle (map fst bins) /\
  Permutation (map fst bins) parts /\
  map snd bins = match parts with
                 | [] => []
                 | _ => map Some (tl (Bins.sort_q parts)) ++ [None]
                 end.
Proof.
  intros bins. unfold bins, Bins.parse_edges. rewrite edges_to_bins_fst.
  split; [reflexivity |]. split; [apply sort_q_sorted |]. split; [apply sort_q_perm |].
  destruct parts as [| x parts']; [reflexivity |].
  destruct (Bins.sort_q (x :: parts')) as [| a l] eqn:E.
  - apply sort_q_nil in E. discriminate.
  - apply edges_to_bins_snd.
Qed.

Lemma existsb_eqb_false (ws : nat) (l : list nat) :
  existsb (Nat.eqb ws) l = false <-> ~ In ws l.
Proof.
  split.
  - intros H Hin. assert (existsb (Nat.eqb ws) l = true) as Ht.
    { apply existsb_exists. exists ws. split; [exact Hin | apply Nat.eqb_refl]. }
    congruence.
  - intros Hn. destruct (existsb (Nat.eqb ws) l) eqn:E; [| reflexivity].
    apply existsb_exists in E as (w & Hw & Heq). apply Nat.eqb_eq in Heq. subst w.
    contradiction.
Qed.

Lemma filter_all {A} (P : A -> Prop) `{!forall x, Decision (P x)} (l : list A) :
  (forall x, In x l -> P x) -> filter P l = l.
Proof.
  induction l as [| a l IH]; intros HP; [reflexivity |].
  rewrite filter_cons_True by (apply HP; left; reflexivity).
  rewrite IH; [reflexivity |]. intros x Hx. apply HP. right. exact Hx.
Qed.

Lemma filter_iff_in {A} (P1 P2 : A -> Prop)
    `{!forall x, Decision (P1 x), !forall x, Decision (P2 x)} (l : list A) :
  (forall x, In x l -> (P1 x <-> P2 x)) -> filter P1 l = filter P2 l.
Proof.
  induction l as [| a l IH]; intros HP; [reflexivity |].
  assert (forall x, In x l -> (P1 x <-> P2 x)) as HP' by (intros x Hx; apply HP; right; exact Hx).
  destruct (decide (P1 a)) as [H1 | H1].
  - assert (P2 a) as H2 by (apply HP; [left; reflexivity | exact H1]).
    rewrite !filter_cons_True by assumption. rewrite IH by exact HP'. reflexivity.
  - assert (~ P2 a) as H2 by (rewrite <- HP; [exact H1 | left; reflexivity]).
    rewrite !filter_cons_False by assumption. apply IH. exact HP'.
Qed.

Lemma filter_neq_absent (ws : nat) (l : list nat) :
  ~ In ws l -> filter (fun w => negb (Nat.eqb w ws)) l = l.
Proof.
  intros Hn. apply filter_all. intros x Hx.
  destruct (Nat.eqb x ws) eqn:E; [| exact I].
  apply Nat.eqb_eq in E. subst x. contradiction.
Qed.

Lemma filter_append_absent (ws : nat) (l : list nat) :
  ~ In ws l -> filter (fun w => negb (Nat.eqb w ws)) (l ++ [ws]) = l.
Proof.
  intros Hn. rewrite filter_app, filter_neq_absent by exact Hn.
  rewrite filter_cons_False by (rewrite Nat.eqb_refl; intros []).
  apply app_nil_r.
Qed.

Lemma broadcast_fold_active (alive : nat -> bool) (p : string)
    (msg : list (string * Json.json)) (c L : list nat) (st : Ingest.server) :
  Ingest.active st !! p = Some L ->
  Ingest.active (fold_left (fun st' ws =>
      if alive ws
      then {| Ingest.db := Ingest.db st'; Ingest.active := Ingest.active st';
              Ingest.sent := Ingest.sent st' ++ [(ws, msg)] |}
      else {| Ingest.db := Ingest.db st'; Ingest.active := Ingest.disconnect p ws (Ingest.active st');
              Ingest.sent := Ingest.sent st' |}) c st)
  = <[p := filter (fun w => negb (existsb (Nat.eqb w) (filter (fun v => negb (alive v)) c))) L]>
      (Ingest.active st).
Proof.
  revert st L. induction c as [| w c IH]; intros st L HL.
  - cbn [fold_left]. rewrite filter_nil. rewrite filter_all by (intros x _; exact I).
    symmetry. apply insert_id. exact HL.
  - cbn [fold_left]. destruct (alive w) eqn:Ew.
    + rewrite IH with (L := L) by exact HL.
      rewrite (filter_cons_False _ w) by (rewrite Ew; intros []). reflexivity.
    + set (st1 := {| Ingest.db := Ingest.db st; Ingest.active := Ingest.disconnect p w (Ingest.active st);
                     Ingest.sent := Ingest.sent st |}).
      assert (Ingest.active st1 !! p = Some (filter (fun v => negb (Nat.eqb v w)) L)) as H1.
      { cbn. unfold Ingest.disconnect. rewrite HL. apply lookup_insert_eq. }
      rewrite (IH st1 _ H1). cbn [Ingest.active st1]. unfold Ingest.disconnect at 1.
      rewrite HL, insert_insert_eq, list_filter_filter.
      rewrite (filter_cons_True _ w) by (rewrite Ew; exact I).
      f_equal. apply list_filter_iff. intros x. cbn [existsb].
      rewrite negb_orb, andb_True. tauto.
Qed.

Lemma dead_membership (alive : nat -> bool) (c : list nat) (w : nat) :
  In w c -> negb (existsb (Nat.eqb w) (filter (fun v => negb (alive v)) c)) = alive w.
Proof.
  intros Hin. destruct (alive w) eqn:Ew.
  - apply negb_true_iff, existsb_eqb_false. intros Hd.
    apply list_elem_of_In, list_elem_of_filter in Hd as [Hd _].
    rewrite Ew in Hd. exact Hd.
  - apply negb_false_iff, existsb_exists. exists w. split; [| apply Nat.eqb_refl].
    apply list_elem_of_In, list_elem_of_filter. split; [rewrite Ew; exact I |].
    apply list_elem_of_In. exact Hin.
Qed.

(** X4: [WSManager.connect] puts the socket into the pair's set (creating an
    empty set for a new pair), keeps the sockets already there, adds no
    duplicate, and leaves the other pairs' sets unchanged. *)
Theorem ws_connect_spec (pair : string) (ws : nat) (act : gmap string (list nat)) :
  let act' := WS.connect pair ws act in
  (exists l', act' !! pair = Some l' /\
     forall w, In w l' <-> w = ws \/ (exists l, act !! pair = Some l /\ In w l)) /\
  (forall p, p <> pair -> act' !! p = act !! p) /\
  ((forall l, act !! pair = Some l -> NoDup l) ->
   forall l', act' !! pair = Some l' -> NoDup l').
Proof.
  intros act'. unfold act', WS.connect.
  set (l := match act !! pair with Some l => l | None => [] end).
  assert (forall w, In w l <-> exists l0, act !! pair = Some l0 /\ In w l0) as Hl.
  { intros w. unfold l. destruct (act !! pair) as [l0 |].
    - split; [intros H; exists l0; split; [reflexivity | exact H] | intros (l1 & H1 & H2); congruence].
    - split; [intros [] | intros (l1 & H1 & _); discriminate]. }
  split; [| split].
  - eexists. split; [apply lookup_insert_eq |]. intros w. rewrite <- Hl.
    destruct (existsb (Nat.eqb ws) l) eqn:E.
    + apply existsb_exists in E as (v & Hv & Hq). apply Nat.eqb_eq in Hq. subst v.
      split; [intros H; right; exact H | intros [-> | H]; assumption].
    + rewrite in_app_iff. cbn. split; intros [H | H]; auto.
      destruct H as [H | []]; auto.
  - intros p Hp. apply lookup_insert_ne. congruence.
  - intros Hnd l' Hl'. rewrite lookup_insert_eq in Hl'. injection Hl' as <-.
    assert (NoDup l) as Hnl.
    { unfold l. destruct (act !! pair) eqn:E; [apply Hnd; reflexivity | constructor]. }
    destruct (existsb (Nat.eqb ws) l) eqn:E; [exact Hnl |].
    apply existsb_eqb_false in E. apply NoDup_app. split; [exact Hnl |]. split.
    + intros x Hx Hx'. apply list_elem_of_singleton in Hx'. subst x.
      apply list_elem_of_In in Hx. contradiction.
    + constructor; [intros Hx; inversion Hx | constructor].
Qed.

(** X5: a [ws_stream] session, [connect] then [disconnect] of a socket not
    yet subscribed to the pair, gives the subscriptions back as they were,
    except that a pair seen for the first time keeps an empty set. *)
Theorem ws_session_roundtrip (pair : string) (ws : nat) (act : gmap string (list nat)) :
  (forall l, act !! pair = Some l -> ~ In ws l) ->
  Ingest.disconnect pair ws (WS.connect pair ws act)
  = <[pair := match act !! pair with Some l => l | None => [] end]> act.
Proof.
  intros Hn. set (l := match act !! pair with Some l => l | None => [] end).
  assert (~ In ws l) as Hl.
  { unfold l. destruct (act !! pair) eqn:E; [apply Hn; reflexivity | intros []]. }
  unfold WS.connect. fold l. apply existsb_eqb_false in Hl as Hf. rewrite Hf.
  unfold Ingest.disconnect. rewrite lookup_insert_eq, insert_insert_eq.
  rewrite filter_append_absent by exact Hl. reflexivity.
Qed.

(** X6: [WSManager.broadcast] drops exactly the pair's sockets whose send
    fails and touches no other pair's subscriptions; a pair with no
    subscribers is left as it is. *)
Theorem ws_broadcast_prunes (alive : nat -> bool) (p : string)
    (msg : list (string * Json.json)) (st : Ingest.server) :
  Ingest.active (Ingest.broadcast alive (Json.JStr p) msg st)
  = match Ingest.active st !! p with
    | Some l => <[p := filter alive l]> (Ingest.active st)
    | None => Ingest.active st
    end.
Proof.
  unfold Ingest.broadcast. destruct (Ingest.active st !! p) as [l |] eqn:E; [| reflexivity].
  rewrite (broadcast_fold_active alive p msg l l st E). f_equal.
  apply filter_iff_in. intros w Hw. rewrite dead_membership by exact Hw. reflexivity.
Qed.

(** Witness of X5. *)
Lemma ws_session_roundtrip_witness :
  (forall l, <["BTC"%string := [1; 3]]> (∅ : gmap string (list nat)) !! "BTC"%string = Some l -> ~ In 2 l) /\
  Ingest.disconnect "BTC" 2 (WS.connect "BTC" 2 (<["BTC"%string := [1; 3]]> ∅))
  = <["BTC"%string := match <["BTC"%string := [1; 3]]> (∅ : gmap string (list nat)) !! "BTC"%string
                      with Some l => l | None => [] end]> (<["BTC"%string := [1; 3]]> ∅).
Proof.
  assert (forall l, <["BTC"%string := [1; 3]]> (∅ : gmap string (list nat)) !! "BTC"%string = Some l ->
                    ~ In 2 l) as H.
  { intros l Hl. vm_compute in Hl. injection Hl as <-. simpl. lia. }
  split; [exact H | apply ws_session_roundtrip; exact H].
Defined.

(** X7: [TokenBucket.consume] with a weight above the bucket's capacity never
    completes: the tokens never reach the weight, so the call is still
    waiting however many clock readings follow. *)
Theorem consume_over_capacity_waits (now : Q) (later : list Q) (b : RateLimit.bucket) (w : Z) :
  (RateLimit.capacity b < w)%Z ->
  exists b', RateLimit.consume now later b w = RateLimit.waiting b'.
Proof.
  intros Hw. destruct (consume_spec now later b w) as [_ [_ H]].
  destruct (RateLimit.consume now later b w) as [b' | b'].
  - exfalso. destruct H as (avail & H1 & H2 & _).
    rewrite Zlt_Qlt in Hw. Lqa.lra.
  - exists b'. reflexivity.
Qed.

(** Witness of X7. *)
Lemma consume_over_capacity_waits_witness :
  (RateLimit.capacity (RateLimit.new_bucket 5 (PyFloat.FFin 1) 0) < 6)%Z /\
  exists b', RateLimit.consume 0 [1; 2; 100]%Q (RateLimit.new_bucket 5 (PyFloat.FFin 1) 0) 6
             = RateLimit.waiting b'.
Proof.
  split; [reflexivity | apply consume_over_capacity_waits; reflexivity].
Defined.

Lemma mul_inf_nonneg (e : Q) :
  (0 <= e)%Q -> PyFloat.mul_inf e true = PyFloat.FNaN \/ PyFloat.mul_inf e true = PyFloat.FInf.
Proof.
  intros He. unfold PyFloat.mul_inf.
  destruct (Qeq_bool e 0) eqn:E0; [left; reflexivity | right].
  destruct (qlt 0 e) eqn:E; [reflexivity |].
  apply qlt_false in E. apply Qeq_bool_neq in E0. exfalso. apply E0. apply Qle_antisym; assumption.
Qed.

Lemma refill_nonneg (b : RateLimit.bucket) (now : Q) :
  (0 <= RateLimit.capacity b)%Z -> fnonneg (RateLimit.tokens b) ->
  fnonneg (RateLimit.refill_rate b) -> (RateLimit.last b <= now)%Q ->
  exists a, RateLimit.tokens (RateLimit.refill b now) = PyFloat.FFin a /\
    (0 <= a)%Q /\ (a <= inject_Z (RateLimit.capacity b))%Q.
Proof.
  intros Hc Ht Hr Hl. cbn [RateLimit.refill RateLimit.tokens].
  assert (He : (0 <= now - RateLimit.last b)%Q) by Lqa.lra.
  assert (Hc' : (0 <= inject_Z (RateLimit.capacity b))%Q).
  { change 0%Q with (inject_Z 0). rewrite <- Zle_Qle. exact Hc. }
  set (x := PyFloat.add (RateLimit.tokens b)
              (PyFloat.mul (PyFloat.FFin (now - RateLimit.last b)) (RateLimit.refill_rate b))).
  assert (Hx : (exists v, x = PyFloat.FFin v /\ (0 <= v)%Q) \/ x = PyFloat.FInf \/ x = PyFloat.FNaN).
  { unfold x. destruct (RateLimit.tokens b) as [t | | |]; cbn in Ht; try contradiction;
      destruct (RateLimit.refill_rate b) as [r | | |]; cbn in Hr; try contradiction.
    - left. exists (t + (now - RateLimit.last b) * r)%Q. split; [reflexivity |].
      assert (0 <= (now - RateLimit.last b) * r)%Q by (apply Qmult_le_0_compat; assumption).
      Lqa.lra.
    - cbn [PyFloat.mul]. destruct (mul_inf_nonneg _ He) as [-> | ->]; [right; right | right; left];
        reflexivity.
    - right; left. reflexivity.
    - cbn [PyFloat.mul]. destruct (mul_inf_nonneg _ He) as [-> | ->]; [right; right | right; left];
        reflexivity. }
  unfold PyFloat.min_int.
  destruct Hx as [[v [-> Hv]] | [-> | ->]]; cbn [PyFloat.lt].
  - destruct (qlt v (inject_Z (RateLimit.capacity b))) eqn:E.
    + exists v. split; [reflexivity | split; [exact Hv |]].
      apply qlt_true in E. apply Qlt_le_weak. exact E.
    + exists (inject_Z (RateLimit.capacity b)). split; [reflexivity | split; [exact Hc' | apply Qle_refl]].
  - exists (inject_Z (RateLimit.capacity b)). split; [reflexivity | split; [exact Hc' | apply Qle_refl]].
  - exists (inject_Z (RateLimit.capacity b)). split; [reflexivity | split; [exact Hc' | apply Qle_refl]].
Qed.

(** X9: [TokenBucket.consume] with a negative weight never waits (on a
    bucket with nonnegative capacity, tokens and rate, infinities
    included, read at a later time): it adds [-weight] tokens to the
    refilled count, so a full bucket ends above its capacity. *)
Theorem consume_negative_weight (now : Q) (later : list Q) (b : RateLimit.bucket) (w : Z) :
  (w < 0)%Z -> (0 <= RateLimit.capacity b)%Z -> fnonneg (RateLimit.tokens b) ->
  fnonneg (RateLimit.refill_rate b) -> (RateLimit.last b <= now)%Q ->
  exists a b', RateLimit.tokens (RateLimit.refill b now) = PyFloat.FFin a /\
    RateLimit.consume now later b w = RateLimit.consumed b' /\
    RateLimit.tokens b' = PyFloat.FFin (a - inject_Z w) /\
    RateLimit.last b' = now /\
    ((a == inject_Z (RateLimit.capacity b))%Q -> (inject_Z (RateLimit.capacity b) < a - inject_Z w)%Q).
Proof.
  intros Hw Hc Ht Hr Hl.
  destruct (refill_nonneg b now Hc Ht Hr Hl) as [a [Ha [Ha0 _]]].
  assert (Hw' : (inject_Z w < 0)%Q).
  { change 0%Q with (inject_Z 0). rewrite <- Zlt_Qlt. exact Hw. }
  assert (E : PyFloat.lt (RateLimit.tokens (RateLimit.refill b now)) (PyFloat.FFin (inject_Z w)) = false).
  { rewrite Ha. cbn [PyFloat.lt]. apply qlt_false. Lqa.lra. }
  exists a. unfold RateLimit.consume.
  destruct later as [| t l]; cbn [RateLimit.wait_loop]; rewrite E;
    (eexists; split; [exact Ha | split; [reflexivity |]]); cbn [RateLimit.tokens RateLimit.last];
    rewrite Ha; (split; [reflexivity | split; [reflexivity |]]);
    intros Hf; Lqa.lra.
Qed.

(** Witness of X9. *)
Lemma consume_negative_weight_witness :
  ((-2 < 0)%Z /\ (0 <= RateLimit.capacity (RateLimit.new_bucket 5 (PyFloat.FFin 1) 0))%Z /\
   fnonneg (RateLimit.tokens (RateLimit.new_bucket 5 (PyFloat.FFin 1) 0)) /\
   fnonneg (RateLimit.refill_rate (RateLimit.new_bucket 5 (PyFloat.FFin 1) 0)) /\
   (RateLimit.last (RateLimit.new_bucket 5 (PyFloat.FFin 1) 0) <= 3)%Q) /\
  exists a b', RateLimit.tokens (RateLimit.refill (RateLimit.new_bucket 5 (PyFloat.FFin 1) 0) 3)
               = PyFloat.FFin a /\
    RateLimit.consume 3 [] (RateLimit.new_bucket 5 (PyFloat.FFin 1) 0) (-2) = RateLimit.consumed b' /\
    RateLimit.tokens b' = PyFloat.FFin (a - inject_Z (-2)) /\
    RateLimit.last b' = 3%Q /\
    ((a == inject_Z (RateLimit.capacity (RateLimit.new_bucket 5 (PyFloat.FFin 1) 0)))%Q ->
     (inject_Z (RateLimit.capacity (RateLimit.new_bucket 5 (PyFloat.FFin 1) 0)) < a - inject_Z (-2))%Q).
Proof.
  split; [repeat split; vm_compute; try reflexivity; discriminate |].
  apply consume_negative_weight; [reflexivity | discriminate | vm_compute; discriminate
                                 | vm_compute; discriminate | vm_compute; discriminate].
Defined.








Lemma insert_by_hd {A} (key : A -> Z) (a b : A) (l : list A) :
  (key b <= key a)%Z -> HdRel (fun x y => (key x <= key y)%Z) b l ->
  HdRel (fun x y => (key x <= key y)%Z) b (Bins.insert_by key a l).
Proof.
  intros Hba Hl. destruct l as [| c l]; cbn.
  - constructor. exact Hba.
  - destruct (key c <? key a)%Z; constructor; [inversion Hl; assumption | exact Hba].
Qed.

Lemma insert_by_sorted {A} (key : A -> Z) (a : A) (l : list A) :
  Sorted (fun x y => (key x <= key y)%Z) l ->
  Sorted (fun x y => (key x <= key y)%Z) (Bins.insert_by key a l).
Proof.
  induction l as [| b l IH]; intros Hs; cbn.
  - repeat constructor.
  - inversion Hs as [| ? ? Hs' Hhd]; subst.
    destruct (key b <? key a)%Z eqn:E.
    + apply Z.ltb_lt in E. constructor; [exact (IH Hs') |].
      apply insert_by_hd; [lia | exact Hhd].
    + apply Z.ltb_ge in E. constructor; [exact Hs |]. constructor. exact E.
Qed.

Lemma sort_by_sorted {A} (key : A -> Z) (l : list A) :
  Sorted Z.le (map key (Bins.sort_by key l)).
Proof.
  assert (Sorted (fun x y => (key x <= key y)%Z) (Bins.sort_by key l)) as H.
  { induction l as [| a l IH]; cbn; [constructor |]. apply insert_by_sorted. exact IH. }
  induction H as [| x l' Hs IH Hhd]; cbn; constructor; [exact IH |].
  destruct Hhd; constructor. assumption.
Qed.

Lemma sorted_nth_mono (l : list Z) :
  Sorted Z.le l -> forall a b, (a <= b < length l)%nat -> (nth a l 0 <= nth b l 0)%Z.
Proof.
  intros Hs. apply Sorted_StronglySorted in Hs; [| intros x y z; apply Z.le_trans].
  induction Hs as [| x l Hs IH Hx]; intros a b Hab; cbn in Hab; [lia |].
  destruct a as [| a], b as [| b]; cbn [nth]; try lia.
  - rewrite List.Forall_forall in Hx. apply Hx. apply nth_In. lia.
  - apply IH. lia.
Qed.

Lemma find_exit_range (e : Q) (l : list Q) (j0 j : nat) :
  Bins.find_exit e l j0 = Some j -> (j0 <= j < j0 + length l)%nat.
Proof.
  revert j0. induction l as [| a l IH]; intros j0 H; cbn in H; [discriminate |].
  destruct (Qle_bool a e).
  - injection H as <-. cbn. lia.
  - apply IH in H. cbn. lia.
Qed.

Lemma walk_ranges (lo : Q) (hi : option Q) (e : Q) (absz : list Q) (tms : list Z)
    (cd : list (option Q)) :
  Sorted Z.le tms -> length tms = length absz ->
  forall fuel i s p s' p',
    Forall (fun x => 0 <= x)%Q s -> Forall (fun x => 0 <= x <= 1)%Q p ->
    Bins.walk lo hi e absz tms cd fuel i s p = Some (s', p') ->
    Forall (fun x => 0 <= x)%Q s' /\ Forall (fun x => 0 <= x <= 1)%Q p'.
Proof.
  intros Hsort Hlen fuel. induction fuel as [| fuel IH]; intros i s p s' p' Hs Hp H;
    cbn [Bins.walk] in H; [discriminate |].
  destruct (Nat.ltb i (length absz)) eqn:Hi; [| injection H as <- <-; split; assumption].
  apply Nat.ltb_lt in Hi.
  destruct (_ && _ && _)%bool; [| exact (IH _ _ _ _ _ Hs Hp H)].
  destruct (Bins.find_exit e (skipn i absz) i) as [j |] eqn:Ef; [| exact (IH _ _ _ _ _ Hs Hp H)].
  apply find_exit_range in Ef. rewrite length_skipn in Ef.
  assert (0 <= nth j tms 0 - nth i tms 0)%Z as Hdt.
  { pose proof (sorted_nth_mono tms Hsort i j ltac:(lia)). lia. }
  refine (IH _ _ _ _ _ _ _ H).
  - apply Forall_app. split; [exact Hs |]. constructor; [| constructor].
    rewrite Qred_correct. apply Qle_shift_div_l; [reflexivity |].
    rewrite Qmult_0_l. change 0%Q with (inject_Z 0). rewrite <- Zle_Qle. exact Hdt.
  - destruct (nth i cd None) as [c |]; [| exact Hp].
    apply Forall_app. split; [exact Hp |]. constructor; [| constructor].
    destruct (Qle_bool _ c); split; discriminate.
Qed.

Lemma pct_nonneg (s : list Q) (p v : Q) :
  Forall (fun x => 0 <= x)%Q s -> Bins.pct s p = Some v -> (0 <= v)%Q.
Proof.
  intros Hs H. unfold Bins.pct in H. destruct (Nat.eqb (length s) 0); [discriminate |].
  injection H as <-. destruct (nth_in_or_default (Z.to_nat (Z.max 0 (Z.min (Z.of_nat (length s) - 1)
    (Bins.round_half_even (p * inject_Z (Z.of_nat (length s) - 1)))))) s 0%Q) as [Hin | Hd].
  - rewrite List.Forall_forall in Hs. apply Hs. exact Hin.
  - rewrite Hd. apply Qle_refl.
Qed.

Lemma sum_unit_bounds (l : list Q) :
  Forall (fun x => 0 <= x <= 1)%Q l ->
  (0 <= fold_right Qplus 0 l <= inject_Z (Z.of_nat (length l)))%Q.
Proof.
  induction l as [| a l IH]; intros H; cbn [fold_right length]; [split; apply Qle_refl |].
  inversion H as [| ? ? Ha Hl]; subst. specialize (IH Hl).
  rewrite Nat2Z.inj_succ, <- Z.add_1_r, inject_Z_plus. change (inject_Z 1) with 1%Q. destruct Ha, IH. split; Lqa.lra.
Qed.

Lemma mean_unit (l : list Q) (m : Q) :
  Forall (fun x => 0 <= x <= 1)%Q l -> Bins.mean_q l = Some m -> (0 <= m <= 1)%Q.
Proof.
  intros H Hm. destruct l as [| a l']; [discriminate |].
  cbn [Bins.mean_q] in Hm. injection Hm as <-. rewrite Qred_correct.
  pose proof (sum_unit_bounds _ H) as [H0 H1].
  assert (0 < inject_Z (Z.of_nat (length (a :: l'))))%Q as Hpos.
  { change 0%Q with (inject_Z 0). rewrite <- Zlt_Qlt. cbn [length]. lia. }
  cbn [fold_right length] in *.
  split.
  - apply Qle_shift_div_l; [exact Hpos | Lqa.lra].
  - apply Qle_shift_div_r; [exact Hpos | Lqa.lra].
Qed.

(** X12: whenever [api_stats_bins] returns, every percentile it reports is
    a nonnegative number of seconds (the series is sorted by time and an
    exit is never before its entry) and every
    [prob_exit_before_funding] lies in [[0, 1]]. *)
Theorem api_stats_bins_ranges (rows : list Bins.row) (now days : Z) (e : Q) (edges : list Q) :
  match Bins.api_stats_bins rows now days e edges with
  | Some bs =>
    Forall (fun b =>
      Forall (fun o => match o with Some v => (0 <= v)%Q | None => True end)
        [Bins.p25_s b; Bins.median_s b; Bins.p75_s b; Bins.p90_s b] /\
      match Bins.prob_exit_before_funding b with
      | Some q => (0 <= q <= 1)%Q
      | None => True
      end) bs
  | None => True
  end.
Proof.
  destruct (Bins.api_stats_bins rows now days e edges) as [bs |] eqn:H; [| exact I].
  unfold Bins.api_stats_bins in H. apply all_some_map in H.
  eapply Forall_impl; [exact H |].
  intros b [[lo hi] [_ Hb]]. unfold Bins.bin_stats in Hb.
  destruct (Bins.walk lo hi e _ _ _ _ 1 [] []) as [[samples prob] |] eqn:Ew; [| discriminate].
  injection Hb as <-. cbn [Bins.p25_s Bins.median_s Bins.p75_s Bins.p90_s
                           Bins.prob_exit_before_funding].
  assert (Sorted Z.le (map Bins.ts_ms (Bins.series rows now days))) as Hsort.
  { unfold Bins.series. apply sort_by_sorted. }
  assert (length (map Bins.ts_ms (Bins.series rows now days))
          = length (Bins.abs_zs (Bins.series rows now days))) as Hlen.
  { unfold Bins.abs_zs. rewrite !length_map. reflexivity. }
  destruct (walk_ranges _ _ _ _ _ _ Hsort Hlen _ _ _ _ _ _ ltac:(constructor) ltac:(constructor) Ew)
    as [Hs Hp].
  assert (Forall (fun x => 0 <= x)%Q (Bins.sort_q samples)) as Hs'.
  { rewrite List.Forall_forall in Hs |- *. intros x Hx. apply Hs.
    apply (Permutation_in _ (sort_q_perm samples)). exact Hx. }
  split.
  - repeat match goal with
    | |- Forall _ (_ :: _) => constructor
    | |- Forall _ [] => constructor
    | |- match Bins.pct ?s ?p with Some _ => _ | None => _ end =>
        destruct (Bins.pct s p) eqn:Ep; [exact (pct_nonneg _ _ _ Hs' Ep) | exact I]
    end.
  - destruct (Bins.mean_q prob) as [m |] eqn:Em; [exact (mean_unit _ _ Hp Em) | exact I].
Qed.

(** X13: [estimate_reversion_times] returns either two [None]s or two
    numbers, never one of each; with a positive [poll_ms] the half-life it
    returns is positive and the exit time nonnegative. *)
Theorem reversion_times_signs (B : list R) (z e : R) (p : Z) :
  match Reversion.estimate_reversion_times B z e p with
  | (None, None) => True
  | (Some h, Some t) => (0 < p)%Z -> (0 < h)%R /\ (0 <= t)%R
  | _ => False
  end.
Proof.
  rewrite reversion_closed_form.
  destruct (Nat.ltb (length B) 10); [exact I |].
  destruct (Req_dec_T (Reversion.ols_den B) 0); [exact I |].
  destruct (Rle_dec (Reversion.ols_phi B) 0) as [| Hphi0]; [exact I |].
  destruct (Rle_dec (9999 / 10000) (Reversion.ols_phi B)) as [| Hphi1]; [exact I |].
  apply Rnot_le_lt in Hphi0. apply Rnot_le_lt in Hphi1. cbv zeta.
  assert (Hhl : (0 < p)%Z -> (0 < ln 2 / - ln (Reversion.ols_phi B) * (IZR p / 1000))%R).
  { intros Hp. apply Rmult_lt_0_compat.
    - apply Rdiv_lt_0_compat; [exact ln2_pos |].
      assert (ln (Reversion.ols_phi B) < ln 1)%R by (apply ln_increasing; lra).
      rewrite ln_1 in H. lra.
    - apply Rdiv_lt_0_compat; [apply IZR_lt; exact Hp | lra]. }
  destruct (Rle_dec e 0); [intros Hp; split; [exact (Hhl Hp) | lra] |].
  destruct (Rle_dec (Rabs z) e) as [| Hz]; [intros Hp; split; [exact (Hhl Hp) | lra] |].
  destruct (Z.eq_dec p 0%Z); [exact I |].
  intros Hp. split; [exact (Hhl Hp) |].
  apply Rnot_le_lt in Hz.
  assert (0 < ln (Rabs z / e))%R.
  { rewrite <- ln_1. apply ln_increasing; [lra |].
    apply (Rmult_lt_reg_r e); [lra |]. unfold Rdiv. rewrite Rmult_assoc, Rinv_l by lra. lra. }
  apply Rlt_le. unfold Rdiv at 2. apply Rmult_lt_0_compat; [apply Rmult_lt_0_compat; [lra | exact (Hhl Hp)] |].
  apply Rinv_0_lt_compat. exact ln2_pos.
Qed.

Lemma conf_bucket_restamp (conf : Json.json) (now1 now2 : Q) :
  RateLimit.conf_bucket conf now2 = option_map (fun b => restamp b now2) (RateLimit.conf_bucket conf now1).
Proof.
  unfold RateLimit.conf_bucket. destruct conf; try reflexivity.
  destruct (Json.py_int _) as [cap |]; [| reflexivity]. cbn.
  destruct (Json.py_float _); [| reflexivity]. cbn.
  destruct (PyFloat.int_fits cap); reflexivity.
Qed.

Lemma limiter_rel_insert (t t1 : Q) (W : list string) (m1 m2 : gmap string RateLimit.bucket)
    (k : string) (b : RateLimit.bucket) :
  limiter_rel t W m1 m2 ->
  limiter_rel t (W ++ [k]) (<[k := b]> m1) (<[k := restamp b t]> m2).
Proof.
  intros H k'. destruct (String.string_dec k k') as [<- | Hne].
  - rewrite !lookup_insert_eq. split.
    + intros _. exists b. split; reflexivity.
    + intros Hn. exfalso. apply Hn. apply in_or_app. right. left. reflexivity.
  - rewrite !lookup_insert_ne by exact Hne. destruct (H k') as [H1 H2]. split.
    + intros Hin. apply in_app_or in Hin as [Hin | [Heq | []]]; [exact (H1 Hin) | congruence].
    + intros Hn. apply H2. intros Hin. apply Hn. apply in_or_app. left. exact Hin.
Qed.

Lemma update_eps_sim (exch : string) (eps : list (string * Json.json)) (now1 now2 : Q) :
  forall W m1 m2, limiter_rel now2 W m1 m2 ->
  snd (RateLimit.update_eps exch eps now2 m2) = snd (RateLimit.update_eps exch eps now1 m1) /\
  (snd (RateLimit.update_eps exch eps now1 m1) = true ->
   limiter_rel now2 (W ++ map (fun '(ep, _) => RateLimit.key exch ep) eps)
     (fst (RateLimit.update_eps exch eps now1 m1)) (fst (RateLimit.update_eps exch eps now2 m2))).
Proof.
  induction eps as [| [ep conf] rest IH]; intros W m1 m2 H; cbn [RateLimit.update_eps].
  - split; [reflexivity |]. intros _. rewrite app_nil_r. exact H.
  - rewrite (conf_bucket_restamp conf now1 now2).
    destruct (RateLimit.conf_bucket conf now1) as [b |]; cbn [option_map]; [| split; [reflexivity | discriminate]].
    destruct (IH _ _ _ (limiter_rel_insert now2 now1 W m1 m2 (RateLimit.key exch ep) b H)) as [Hok Hrel].
    split; [exact Hok |]. intros Ht. specialize (Hrel Ht).
    rewrite <- app_assoc in Hrel. exact Hrel.
Qed.

Lemma config_keys_obj (exch : string) (eps : list (string * Json.json)) :
  map (fun '(ex, ep) => RateLimit.key ex ep) (map (fun '(ep, _) => (exch, ep)) eps)
  = map (fun '(ep, _) => RateLimit.key exch ep) eps.
Proof. induction eps as [| [ep c] rest IH]; [reflexivity | cbn; rewrite IH; reflexivity]. Qed.

Lemma update_exchs_sim (cfg : list (string * Json.json)) (now1 now2 : Q) :
  forall W m1 m2, limiter_rel now2 W m1 m2 ->
  snd (RateLimit.update_exchs cfg now2 m2) = snd (RateLimit.update_exchs cfg now1 m1) /\
  (snd (RateLimit.update_exchs cfg now1 m1) = true ->
   limiter_rel now2 (W ++ map (fun '(ex, ep) => RateLimit.key ex ep) (RateLimit.config_keys (Json.JObj cfg)))
     (fst (RateLimit.update_exchs cfg now1 m1)) (fst (RateLimit.update_exchs cfg now2 m2))).
Proof.
  induction cfg as [| [exch c] rest IH]; intros W m1 m2 H; cbn [RateLimit.update_exchs].
  - split; [reflexivity |]. intros _. cbn. rewrite app_nil_r. exact H.
  - destruct c as [| | | | | | eps]; try (split; [reflexivity | discriminate]).
    destruct (update_eps_sim exch eps now1 now2 W m1 m2 H) as [Hok Hrel].
    destruct (RateLimit.update_eps exch eps now1 m1) as [a1 ok1] eqn:E1.
    destruct (RateLimit.update_eps exch eps now2 m2) as [a2 ok2] eqn:E2.
    cbn [snd fst] in Hok, Hrel. subst ok2.
    destruct ok1; [| split; [reflexivity | discriminate]].
    destruct (IH _ _ _ (Hrel eq_refl)) as [Hok' Hrel'].
    split; [exact Hok' |]. intros Ht. specialize (Hrel' Ht).
    cbn [RateLimit.config_keys flat_map]. rewrite map_app, config_keys_obj, app_assoc.
    exact Hrel'.
Qed.



(** X15: when [POST /api/admin/config] answers 200, a later restart
    ([on_startup] at clock reading [t]) rebuilds from the stored row a
    limiter holding, for each configured ["exchange:endpoint"] key, the
    bucket the running limiter got for it (same capacity, rate and tokens,
    timed at [t]), and no other bucket. *)
Theorem admin_config_restart (payload : list (string * Json.json)) (now t : Q) (st : Admin.panel) :
  fst (Admin.api_admin_set payload now st) = Ingest.status_ok ->
  exists m2,
    Admin.startup_limiter (snd (Admin.api_admin_set payload now st)) t = Some m2 /\
    forall k,
      ((exists ex ep, In (ex, ep) (RateLimit.config_keys (Json.get_default "ratelimits" Json.JNull payload)) /\
                      RateLimit.key ex ep = k) ->
       exists b, Admin.ratelimiter (snd (Admin.api_admin_set payload now st)) !! k = Some b /\
                 m2 !! k = Some (restamp b t)) /\
      (~ (exists ex ep, In (ex, ep) (RateLimit.config_keys (Json.get_default "ratelimits" Json.JNull payload)) /\
                        RateLimit.key ex ep = k) ->
       m2 !! k = None).
Proof.
  unfold Admin.api_admin_set.
  destruct (Ingest.has_key "ratelimits" payload) eqn:Hk; cbn [negb]; [| discriminate].
  set (rl := Json.get_default "ratelimits" Json.JNull payload).
  cbn [Admin.ratelimiter Admin.admin_set_config].
  destruct rl as [| | | | | | cfg] eqn:Erl;
    try (cbn [RateLimit.update]; intros H; discriminate H).
  cbn [RateLimit.update].
  assert (limiter_rel t [] (Admin.ratelimiter st) ∅) as H0.
  { intros k. split; [intros [] | intros _; apply lookup_empty]. }
  destruct (update_exchs_sim cfg now t [] (Admin.ratelimiter st) ∅ H0) as [Hok Hrel].
  destruct (RateLimit.update_exchs cfg now (Admin.ratelimiter st)) as [m1 ok] eqn:E1.
  destruct ok; [| intros H; discriminate H]. intros _. cbn [snd fst] in Hok, Hrel |- *.
  specialize (Hrel eq_refl). cbn [app] in Hrel.
  unfold Admin.startup_limiter, Admin.admin_get_config. cbn [Admin.admin_row].
  assert (Admin.truthy (Json.JObj payload) = true) as Ht.
  { destruct payload; [discriminate | reflexivity]. }
  cbn [Admin.admin_row Admin.admin_set_config Admin.ratelimiter]. rewrite Ht. cbv iota. fold rl. rewrite Erl.
  unfold Admin.new_limiter.
  assert (forall k, (exists ex ep, In (ex, ep) (RateLimit.config_keys (Json.JObj cfg)) /\ RateLimit.key ex ep = k)
                    <-> In k (map (fun '(ex, ep) => RateLimit.key ex ep) (RateLimit.config_keys (Json.JObj cfg)))) as Hiff.
  { intros k. rewrite in_map_iff. split.
    - intros (ex & ep & Hin & Hkey). exists (ex, ep). split; assumption.
    - intros ([ex ep] & Hkey & Hin). exists ex, ep. split; assumption. }
  destruct (Admin.truthy (Json.JObj cfg)) eqn:Htc.
  - cbn [RateLimit.update].
    destruct (RateLimit.update_exchs cfg t ∅) as [m2 ok2] eqn:E2. cbn [snd] in Hok. subst ok2.
    eexists. split; [reflexivity |]. intros k. cbn [fst] in Hrel.
    destruct (Hrel k) as [H1 H2]. split.
    + intros Hex. apply H1. apply Hiff. exact Hex.
    + intros Hn. apply H2. intros Hin. apply Hn. apply Hiff. exact Hin.
  - destruct cfg; [| discriminate]. eexists. split; [reflexivity |].
    intros k. split.
    + intros (ex & ep & [] & _).
    + intros _. apply lookup_empty.
Qed.

(** Witness of X15. *)
Lemma admin_config_restart_witness :
  fst (Admin.api_admin_set [("ratelimits", Admin.default_config)] 0
         {| Admin.admin_row := None; Admin.ratelimiter := ∅ |}) = Ingest.status_ok /\
  exists m2,
    Admin.startup_limiter (snd (Admin.api_admin_set [("ratelimits", Admin.default_config)] 0
                                  {| Admin.admin_row := None; Admin.ratelimiter := ∅ |})) 5 = Some m2 /\
    forall k,
      ((exists ex ep, In (ex, ep) (RateLimit.config_keys
                                     (Json.get_default "ratelimits" Json.JNull [("ratelimits", Admin.default_config)])) /\
                      RateLimit.key ex ep = k) ->
       exists b, Admin.ratelimiter (snd (Admin.api_admin_set [("ratelimits", Admin.default_config)] 0
                                          {| Admin.admin_row := None; Admin.ratelimiter := ∅ |})) !! k = Some b /\
                 m2 !! k = Some (restamp b 5)) /\
      (~ (exists ex ep, In (ex, ep) (RateLimit.config_keys
                                       (Json.get_default "ratelimits" Json.JNull [("ratelimits", Admin.default_config)])) /\
                        RateLimit.key ex ep = k) ->
       m2 !! k = None).
Proof.
  assert (fst (Admin.api_admin_set [("ratelimits", Admin.default_config)] 0
                 {| Admin.admin_row := None; Admin.ratelimiter := ∅ |}) = Ingest.status_ok) as H.
  { vm_compute. reflexivity. }
  split; [exact H | apply admin_config_restart; exact H].
Defined.

(** X16: with no admin config stored, the panel's own limiter starts with
    no buckets (every request then falls back to a [TokenBucket(1000, 1000)]),
    while a runner that fetches [GET /api/admin/config] gets the served
    defaults: ["aster:global"] and ["lighter:global"] with capacity 20 and
    refill 10, and nothing else. *)
Theorem admin_default_limits_diverge (st : Admin.panel) (now t : Q) :
  Admin.admin_row st = None ->
  Admin.startup_limiter st now = Some ∅ /\
  forall k,
    Runner.runner_limiter (Admin.api_admin_get st) t !! k =
    if String.eqb k "aster:global" then Some (RateLimit.new_bucket 20 (PyFloat.FFin 10) t)
    else if String.eqb k "lighter:global" then Some (RateLimit.new_bucket 20 (PyFloat.FFin 10) t)
    else None.
Proof.
  intros Hn. unfold Admin.startup_limiter, Admin.api_admin_get, Admin.admin_get_config.
  rewrite Hn. split; [reflexivity |]. intros k.
  unfold Runner.runner_limiter. cbn -[RateLimit.new_bucket insert lookup empty].
  change (RateLimit.key "aster" "global") with "aster:global"%string.
  change (RateLimit.key "lighter" "global") with "lighter:global"%string.
  change (PyFloat.int_fits 20) with true. cbn -[RateLimit.new_bucket insert lookup empty].
  destruct (String.eqb_spec k "aster:global") as [-> | Ha].
  - rewrite lookup_insert_ne by discriminate. apply lookup_insert_eq.
  - destruct (String.eqb_spec k "lighter:global") as [-> | Hl].
    + apply lookup_insert_eq.
    + rewrite !lookup_insert_ne by congruence. apply lookup_empty.
Qed.

(** Witness of X16. *)
Lemma admin_default_limits_diverge_witness :
  Admin.admin_row {| Admin.admin_row := None; Admin.ratelimiter := ∅ |} = None /\
  Admin.startup_limiter {| Admin.admin_row := None; Admin.ratelimiter := ∅ |} 0 = Some ∅ /\
  forall k,
    Runner.runner_limiter (Admin.api_admin_get {| Admin.admin_row := None; Admin.ratelimiter := ∅ |}) 7 !! k =
    if String.eqb k "aster:global" then Some (RateLimit.new_bucket 20 (PyFloat.FFin 10) 7)
    else if String.eqb k "lighter:global" then Some (RateLimit.new_bucket 20 (PyFloat.FFin 10) 7)
    else None.
Proof.
  split; [reflexivity | apply admin_default_limits_diverge; reflexivity].
Defined.

